(** * Voice control node: a shallow embedding of [voice_control_node.py]

    The development follows the source file top to bottom: Python values
    ([str], [bytes]), the [AudioDeviceManager] class, then the
    [VoiceControlNode] callbacks (key handling, capture, recognition
    session, command dispatch, request signing). *)

From Stdlib Require Import Strings.Ascii Strings.String Strings.Byte.
From Stdlib Require Import PrimFloat.
From Stdlib Require Import ZArith NArith Lia Bool List.
From Stdlib Require FloatOps SpecFloat DecimalString.
Import ListNotations.

Set Warnings "-inexact-float,-register-all".

(** ** Python values *)

Module Py.

(** A Python [str] is a sequence of Unicode code points. *)
Definition str := list N.

(** A Python [bytes] object. *)
Definition bytes := list byte.

(** Source literals are written as UTF-8 text and decoded to code points. *)
Fixpoint utf8_decode (bs : list N) : str :=
  match bs with
  | [] => []
  | b0 :: r0 =>
    if (b0 <? 128)%N then b0 :: utf8_decode r0 else
    match r0 with
    | [] => []
    | b1 :: r1 =>
      if (b0 <? 224)%N
      then ((b0 mod 32) * 64 + b1 mod 64)%N :: utf8_decode r1 else
      match r1 with
      | [] => []
      | b2 :: r2 =>
        if (b0 <? 240)%N
        then ((b0 mod 16) * 4096 + (b1 mod 64) * 64 + b2 mod 64)%N
             :: utf8_decode r2 else
        match r2 with
        | [] => []
        | b3 :: r3 =>
          ((b0 mod 8) * 262144 + (b1 mod 64) * 4096
           + (b2 mod 64) * 64 + b3 mod 64)%N :: utf8_decode r3
        end
      end
    end
  end.

Definition u (s : string) : str :=
  utf8_decode (map N_of_ascii (list_ascii_of_string s)).

(** The character U+0022, which the source writes escaped inside f-strings. *)
Definition dquote : N := 34%N.

(** [s.startswith(p)] *)
Fixpoint startswith (p s : str) : bool :=
  match p, s with
  | [], _ => true
  | _ :: _, [] => false
  | c :: p', d :: s' => (c =? d)%N && startswith p' s'
  end.

(** [p in s] on strings: [p] occurs in [s] as a contiguous run. *)
Fixpoint str_in (p s : str) : bool :=
  startswith p s ||
  match s with
  | [] => false
  | _ :: s' => str_in p s'
  end.

(** The relation that [str_in] decides. *)
Definition substring (p s : str) : Prop :=
  exists a b, s = a ++ p ++ b.

(** [o == v] for a value that is an integer or [None]. *)
Definition option_Z_eqb (o : option Z) (v : Z) : bool :=
  match o with
  | Some c => Z.eqb c v
  | None => false
  end.

(** Truthiness of an optional string: [None] and the empty string are falsy. *)
Definition truthy (o : option str) : bool :=
  match o with
  | Some (_ :: _) => true
  | _ => false
  end.

End Py.
Import Py.

Local Open Scope Z_scope.

(** ** Observable effects *)

Inductive level := info | warn | error.

Module Vector3.
Record t := { x : float; y : float; z : float }.
End Vector3.

Record Twist := { linear : Vector3.t; angular : Vector3.t }.

(** [Twist()] as constructed by the message class: all components zero. *)
Definition Twist0 : Twist :=
  {| linear := {| Vector3.x := 0; Vector3.y := 0; Vector3.z := 0 |};
     angular := {| Vector3.x := 0; Vector3.y := 0; Vector3.z := 0 |} |}.

(** [twist_msg.linear.x = v] *)
Definition set_linear_x (t : Twist) (v : float) : Twist :=
  {| linear := {| Vector3.x := v; Vector3.y := Vector3.y (linear t);
                  Vector3.z := Vector3.z (linear t) |};
     angular := angular t |}.

(** [twist_msg.angular.z = v] *)
Definition set_angular_z (t : Twist) (v : float) : Twist :=
  {| linear := linear t;
     angular := {| Vector3.x := Vector3.x (angular t);
                   Vector3.y := Vector3.y (angular t); Vector3.z := v |} |}.

(** Values handed to [json.dumps] by the client. *)
Inductive json :=
| JInt (n : Z)
| JStr (s : str)
| JObj (fields : list (str * json)).

(** What a callback does to the outside world, in program order. *)
Inductive event :=
| Log (lvl : level) (msg : str)          (* self.get_logger().<lvl>(msg) *)
| Publish (msg : Twist)                  (* self.publisher_.publish(msg) *)
| ThreadStart (recorded_data : bytes)    (* Thread(target=process_audio).start() *)
| StopEventSet                           (* self.stop_event.set() *)
| CreateTimerDestroy                     (* self.create_timer(0.1, self.destroy_node) *)
| WsConnect (url : str)                  (* websocket.create_connection(url) *)
| WsSend (frame : json)                  (* ws.send(json.dumps(frame)) *)
| WsClose.                               (* ws.close() *)

(** ** Exceptions and effects

    A computation emits events and either returns or raises. *)

Inductive result (A : Type) :=
| Ok (a : A)
| Raise (e : str).
Arguments Ok {A} a.
Arguments Raise {A} e.

Definition M (A : Type) : Type := list event * result A.

Definition ret {A} (a : A) : M A := ([], Ok a).
Definition raise {A} (e : str) : M A := ([], Raise e).
Definition emit (ev : event) : M unit := ([ev], Ok tt).

Definition bind {A B} (m : M A) (k : A -> M B) : M B :=
  match m with
  | (evs, Ok a) => let (evs', r) := k a in (evs ++ evs', r)
  | (evs, Raise e) => (evs, Raise e)
  end.

(** [try: m except Exception as e: h(e)] *)
Definition try_except {A} (m : M A) (h : str -> M A) : M A :=
  match m with
  | (evs, Ok a) => (evs, Ok a)
  | (evs, Raise e) => let (evs', r) := h e in (evs ++ evs', r)
  end.

Declare Scope py_scope.
Delimit Scope py_scope with py.
Notation "x <- m ;; k" := (bind m (fun x => k))
  (at level 61, m at next level, right associativity) : py_scope.
Notation "m ;;; k" := (bind m (fun _ => k))
  (at level 61, right associativity) : py_scope.

Definition events {A} (m : M A) : list event := fst m.

(** The motion commands an event trace publishes. *)
Fixpoint published (evs : list event) : list Twist :=
  match evs with
  | [] => []
  | Publish t :: r => t :: published r
  | _ :: r => published r
  end.

(** The recognition threads an event trace starts. *)
Fixpoint started (evs : list event) : list bytes :=
  match evs with
  | [] => []
  | ThreadStart d :: r => d :: started r
  | _ :: r => started r
  end.

(** The protocol frames an event trace sends. *)
Fixpoint sent (evs : list event) : list json :=
  match evs with
  | [] => []
  | WsSend f :: r => f :: sent r
  | _ :: r => sent r
  end.

(** The connections an event trace attempts. *)
Fixpoint connections (evs : list event) : list str :=
  match evs with
  | [] => []
  | WsConnect url :: r => url :: connections r
  | _ :: r => connections r
  end.

(** The messages an event trace logs at a given level. *)
Definition level_eqb (a b : level) : bool :=
  match a, b with
  | info, info | warn, warn | error, error => true
  | _, _ => false
  end.

Fixpoint logged (lvl : level) (evs : list event) : list str :=
  match evs with
  | [] => []
  | Log l m :: r => if level_eqb l lvl then m :: logged lvl r else logged lvl r
  | _ :: r => logged lvl r
  end.

(** ** [AudioDeviceManager] *)

Definition RATE_TARGET : Z := 16000.
Definition CHANNELS_TARGET : Z := 1.
Definition CHUNK_SIZE : Z := 1280.

Module Int16.

Definition byte_val (b : byte) : Z := Z.of_N (Byte.to_N b).

Definition byte_of (v : Z) : byte :=
  match Byte.of_N (Z.to_N v) with
  | Some b => b
  | None => x00
  end.

(** Two's-complement reading of a 16-bit pattern. *)
Definition signed (v : Z) : Z :=
  if v <? 32768 then v else v - 65536.

(** [astype(np.int16)] on an integer value: keep the low 16 bits. *)
Definition wrap (v : Z) : Z := signed (v mod 65536).

(** One little-endian sample. *)
Definition decode (lo hi : byte) : Z :=
  signed (byte_val lo + 256 * byte_val hi).

Definition encode (v : Z) : bytes :=
  let v' := v mod 65536 in
  [byte_of (v' mod 256); byte_of (v' / 256)].

Definition in_range (v : Z) : Prop := -32768 <= v <= 32767.

End Int16.

(** [np.frombuffer(data, dtype=np.int16)]: fails when the buffer is not a
    whole number of samples. *)
Fixpoint frombuffer (data : bytes) : option (list Z) :=
  match data with
  | [] => Some []
  | [_] => None
  | lo :: hi :: rest =>
    match frombuffer rest with
    | Some samples => Some (Int16.decode lo hi :: samples)
    | None => None
    end
  end.

(** [audio.tobytes()] on an int16 array. *)
Definition tobytes (audio : list Z) : bytes :=
  flat_map Int16.encode audio.

(** [audio.reshape(-1, channels)]: consecutive rows of [channels] samples;
    fails when the samples do not fill the last row. *)
Fixpoint reshape (fuel : nat) (channels : nat) (audio : list Z)
  : option (list (list Z)) :=
  match audio with
  | [] => Some []
  | _ :: _ =>
    match fuel with
    | O => None
    | S fuel' =>
      if (length audio <? channels)%nat then None else
      match reshape fuel' channels (skipn channels audio) with
      | Some rows => Some (firstn channels audio :: rows)
      | None => None
      end
    end
  end.

Definition sum (row : list Z) : Z := fold_right Z.add 0 row.

(** [.mean(axis=1).astype(np.int16)] on one row. The mean is taken in
    double precision, where the sum of a row of 16-bit samples is exact and
    the rounding of the quotient cannot reach the next integer; the cast
    then drops the fractional part. *)
Definition mean_int16 (row : list Z) : Z :=
  Int16.wrap (Z.quot (sum row) (Z.of_nat (length row))).

(** The downmix branch of [resample_audio]. *)
Definition downmix (input_channels : Z) (audio : list Z) : result (list Z) :=
  if input_channels >? 1 then
    match reshape (length audio) (Z.to_nat input_channels) audio with
    | Some rows => Ok (map mean_int16 rows)
    | None => Raise (u "ValueError: cannot reshape array")
    end
  else Ok audio.

(** The numeric libraries the rate conversion calls: single-precision
    arrays and [librosa.resample]. *)
Class Dsp := {
  float32 : Type;
  (** [audio.astype(np.float32) / 32768.0], per sample *)
  normalize : Z -> float32;
  (** [librosa.resample(y, orig_sr=, target_sr=)], which may raise; the
      caller passes [self.input_rate] as it is, an integer or [None] *)
  librosa_resample : list float32 -> option Z -> Z -> result (list float32);
  (** [(y * 32768).astype(np.int16)], per sample *)
  requantize : float32 -> Z
}.

(** The audio back end: stream and library handles of PyAudio. An
    operation either leaves the handle in a new state or raises. *)
Class PortAudio := {
  Stream : Type;
  PyAudio : Type;
  stop_stream : Stream -> result Stream;
  stream_close : Stream -> result Stream;
  terminate : PyAudio -> result PyAudio
}.

Record AudioDeviceManager `{PortAudio} := {
  p : PyAudio;
  device_index : option Z;
  input_rate : option Z;
  input_channels : option Z;
  stream : option Stream;
  resample_required : bool
}.

(** [AudioDeviceManager.__init__] *)
Definition AudioDeviceManager_init `{PortAudio} (pa : PyAudio)
  : AudioDeviceManager :=
  {| p := pa; device_index := None; input_rate := None;
     input_channels := None; stream := None; resample_required := false |}.

Definition TypeError_None : str :=
  u "TypeError: '>' not supported between instances of 'NoneType' and 'int'".

(** The body of the [try] in [resample_audio]; [input_rate] is
    [self.input_rate]. *)
Definition rate_convert `{Dsp} (input_rate : option Z) (audio : list Z)
  : result bytes :=
  let audio_float := map normalize audio in
  match librosa_resample audio_float input_rate RATE_TARGET with
  | Ok resampled_float =>
    Ok (tobytes (map (fun v => Int16.wrap (requantize v)) resampled_float))
  | Raise e => Raise e
  end.

Definition msg_resample_failed (e : str) : str := u "重采样失败: " ++ e.

Definition resample_audio `{PortAudio} `{Dsp}
  (self : AudioDeviceManager) (data : bytes) : M bytes :=
  if negb (resample_required self) then ret data else
  match frombuffer data with
  | None => raise (u "ValueError: buffer size must be a multiple of element size")
  | Some audio0 =>
    match input_channels self with
    | None => raise TypeError_None
    | Some channels =>
      match downmix channels audio0 with
      | Raise e => raise e
      | Ok audio =>
        if negb (option_Z_eqb (input_rate self) RATE_TARGET) then
          match rate_convert (input_rate self) audio with
          | Ok out => ret out
          | Raise e =>
            (emit (Log error (msg_resample_failed e)) ;;;
             ret (tobytes audio))%py
          end
        else ret (tobytes audio)
      end
    end
  end.

Definition msg_released : str := u "音频资源已释放".

(** [AudioDeviceManager.close] *)
Definition close `{PortAudio} (self : AudioDeviceManager)
  : M AudioDeviceManager :=
  (stream' <-
     match stream self with
     | Some s =>
       match stop_stream s with
       | Raise e => raise e
       | Ok s1 =>
         match stream_close s1 with
         | Raise e => raise e
         | Ok s2 => ret (Some s2)
         end
       end
     | None => ret None
     end ;;
   match terminate (p self) with
   | Raise e => raise e
   | Ok p' =>
     emit (Log info msg_released) ;;;
     ret {| p := p'; device_index := device_index self;
            input_rate := input_rate self;
            input_channels := input_channels self;
            stream := stream';
            resample_required := resample_required self |}
   end)%py.

(** ** [VoiceControlNode]: command table and dispatch *)

(** [self.commands]: a dict literal, iterated in insertion order. *)
Definition commands : list (str * (float * float)) :=
  [ (u "前进", (0.2, 0.0)); (u "向前", (0.2, 0.0)); (u "后退", (-0.2, 0.0));
    (u "左转", (0.0, 0.5)); (u "右转", (0.0, -0.5)); (u "停", (0.0, 0.0));
    (u "停止", (0.0, 0.0)); (u "原地左转", (0.0, 1.0));
    (u "原地右转", (0.0, -1.0));
    (u "加速", (0.4, 0.0)); (u "减速", (0.1, 0.0)) ]%float.

Definition prompt_next : event :=
  Log info (10%N :: u "请按 [空格键] 开始下一次录音，或按 [q] 退出。").

Definition msg_empty_result : str := u "识别结果为空。".

Definition msg_recognized (text : str) : str :=
  u "识别结果: " ++ [dquote] ++ text ++ [dquote].

Definition msg_execute (cmd : str) : str :=
  u "✅ 执行指令: '" ++ cmd ++ u "'".

Definition msg_not_found (text : str) : str :=
  u "在 " ++ [dquote] ++ text ++ [dquote] ++ u " 中未找到有效指令。".

(** The motion message built for a table entry. *)
Definition twist_of (linear_x angular_z : float) : Twist :=
  set_angular_z (set_linear_x Twist0 linear_x) angular_z.

(** The [for cmd, (linear_x, angular_z) in self.commands.items()] loop of
    [handle_final_result], with the code after it as the base case. *)
Fixpoint dispatch_loop (items : list (str * (float * float))) (text : str)
  : list event :=
  match items with
  | [] => [Log warn (msg_not_found text); prompt_next]
  | (cmd, (linear_x, angular_z)) :: rest =>
    if str_in cmd text
    then [Log info (msg_execute cmd);
          Publish (twist_of linear_x angular_z);
          prompt_next]
    else dispatch_loop rest text
  end.

Definition handle_final_result (text : str) : list event :=
  match text with
  | [] => [Log warn msg_empty_result; prompt_next]
  | _ :: _ => Log info (msg_recognized text) :: dispatch_loop commands text
  end.

(** ** [VoiceControlNode]: recording state *)

(** The fields of the node that the key handler and the capture loop share
    under [recording_lock]. *)
Record node := {
  is_recording : bool;
  audio_buffer : list bytes
}.

(** The state [__init__] leaves behind. *)
Definition node_init : node :=
  {| is_recording := false; audio_buffer := [] |}.

(** A key as [pynput] reports it: a character key (whose [char] may be
    [None]), the space bar, or another special key. Special keys have no
    [char] attribute. *)
Inductive key :=
| KeyCode (char : option N)
| KeySpace
| KeySpecial.

Definition msg_rec_start : str :=
  10%N :: u "▶️  录音开始... (再次按下空格键结束)".
Definition msg_rec_stop : str := u "⏹️  录音结束，正在处理...".
Definition msg_rec_empty : str := u "录音内容为空。".
Definition msg_quit : str := u "检测到退出键 [q]，正在关闭...".

(** [b''.join(chunks)] *)
Definition join_bytes (chunks : list bytes) : bytes := concat chunks.

(** [on_key_press]: the new state, what was done, and the value returned
    to the listener ([False] stops it). *)
Definition on_key_press (self : node) (k : key) : node * list event * bool :=
  match k with
  | KeyCode char =>
    match char with
    | Some 113%N =>
      (self, [Log info msg_quit; StopEventSet; CreateTimerDestroy], false)
    | _ => (self, [], true)
    end
  | KeySpace =>
    let recording := negb (is_recording self) in
    if recording then
      ({| is_recording := recording; audio_buffer := [] |},
       [Log info msg_rec_start], true)
    else
      let self' := {| is_recording := recording;
                      audio_buffer := audio_buffer self |} in
      match audio_buffer self with
      | _ :: _ =>
        (self',
         [Log info msg_rec_stop; ThreadStart (join_bytes (audio_buffer self))],
         true)
      | [] => (self', [Log info msg_rec_stop; Log warn msg_rec_empty], true)
      end
  | KeySpecial => (self, [], true)
  end.

(** A run of toggle events with nothing in between. *)
Fixpoint press_space (n : nat) (self : node) : node * list event :=
  match n with
  | O => (self, [])
  | S n' =>
    let '(self1, evs1, _) := on_key_press self KeySpace in
    let (self2, evs2) := press_space n' self1 in
    (self2, evs1 ++ evs2)
  end.

(** [capture_audio_loop], one iteration after [stream.read] returned
    [raw_data]: the body of [with self.recording_lock]. *)
Definition capture_step `{PortAudio} `{Dsp}
  (audio_mgr : AudioDeviceManager) (self : node) (raw_data : bytes) : M node :=
  if is_recording self then
    (processed_data <- resample_audio audio_mgr raw_data ;;
     ret {| is_recording := is_recording self;
            audio_buffer := audio_buffer self ++ [processed_data] |})%py
  else ret self.

(** ** Request signing *)

Definition b64_char (i : Z) : N :=
  Z.to_N (if i <? 26 then 65 + i
          else if i <? 52 then 97 + (i - 26)
          else if i <? 62 then 48 + (i - 52)
          else if i =? 62 then 43 else 47).

(** [base64.b64encode(data).decode('utf-8')] *)
Fixpoint b64encode (data : bytes) : str :=
  match data with
  | [] => []
  | [a] =>
    let n := Int16.byte_val a * 65536 in
    [b64_char (n / 262144); b64_char (n / 4096 mod 64); 61%N; 61%N]
  | [a; b] =>
    let n := Int16.byte_val a * 65536 + Int16.byte_val b * 256 in
    [b64_char (n / 262144); b64_char (n / 4096 mod 64);
     b64_char (n / 64 mod 64); 61%N]
  | a :: b :: c :: rest =>
    let n := Int16.byte_val a * 65536 + Int16.byte_val b * 256
             + Int16.byte_val c in
    b64_char (n / 262144) :: b64_char (n / 4096 mod 64)
    :: b64_char (n / 64 mod 64) :: b64_char (n mod 64) :: b64encode rest
  end.

Definition UnicodeEncodeError : str :=
  u "UnicodeEncodeError: 'utf-8' codec can't encode character".

(** One code point in UTF-8; surrogates are not encodable. *)
Definition encode_char (c : N) : option bytes :=
  let c := Z.of_N c in
  let b := Int16.byte_of in
  if c <? 128 then Some [b c]
  else if c <? 2048 then Some [b (192 + c / 64); b (128 + c mod 64)]
  else if c <? 65536 then
    if (55296 <=? c) && (c <? 57344) then None
    else Some [b (224 + c / 4096); b (128 + c / 64 mod 64); b (128 + c mod 64)]
  else if c <? 1114112 then
    Some [b (240 + c / 262144); b (128 + c / 4096 mod 64);
          b (128 + c / 64 mod 64); b (128 + c mod 64)]
  else None.

(** [s.encode('utf-8')] *)
Fixpoint encode_utf8 (s : str) : M bytes :=
  match s with
  | [] => ret []
  | c :: s' =>
    match encode_char c with
    | None => raise UnicodeEncodeError
    | Some bs => (rest <- encode_utf8 s' ;; ret (bs ++ rest))%py
    end
  end.

Definition hex_digit (d : Z) : N :=
  Z.to_N (if d <? 10 then 48 + d else 55 + d).

(** Characters [urllib.parse.quote] never escapes: letters, digits, [_.-~]. *)
Definition always_safe (c : Z) : bool :=
  ((65 <=? c) && (c <=? 90)) || ((97 <=? c) && (c <=? 122))
  || ((48 <=? c) && (c <=? 57))
  || (c =? 95) || (c =? 46) || (c =? 45) || (c =? 126).

(** [quote_plus] on one encoded byte. *)
Definition quote_byte (b : byte) : str :=
  let c := Int16.byte_val b in
  if always_safe c then [Z.to_N c]
  else if c =? 32 then [43%N]
  else [37%N; hex_digit (c / 16); hex_digit (c mod 16)].

(** [urllib.parse.quote_plus(s)] *)
Definition quote_plus (s : str) : M str :=
  (bs <- encode_utf8 s ;; ret (flat_map quote_byte bs))%py.

(** ['&'.join(parts)] *)
Fixpoint join_amp (parts : list str) : str :=
  match parts with
  | [] => []
  | [a] => a
  | a :: rest => a ++ 38%N :: join_amp rest
  end.

Fixpoint quote_pairs (v : list (str * str)) : M (list str) :=
  match v with
  | [] => ret []
  | (k, val) :: rest =>
    (k' <- quote_plus k ;;
     val' <- quote_plus val ;;
     l <- quote_pairs rest ;;
     ret ((k' ++ 61%N :: val') :: l))%py
  end.

(** [urllib.parse.urlencode(v)] on a dict of strings. *)
Definition urlencode (v : list (str * str)) : M str :=
  (l <- quote_pairs v ;; ret (join_amp l))%py.

(** The clock and the keyed hash the signature is built from. *)
Class SignLibs := {
  datetime : Type;
  (** [format_date_time(mktime(now.timetuple()))] *)
  format_date_time : datetime -> str;
  (** [hmac.new(key, msg, digestmod=hashlib.sha256).digest()] *)
  hmac_sha256 : bytes -> bytes -> bytes
}.

(** The module-level credentials, as [os.getenv] returned them. *)
Record credentials := {
  XFYUN_APPID : option str;
  XFYUN_APIKEY : option str;
  XFYUN_APISECRET : option str
}.

Record Ws_Param := {
  APPID : str;
  APIKey : str;
  APISecret : str;
  CommonArgs : json;
  BusinessArgs : json
}.

(** [Ws_Param.__init__] *)
Definition Ws_Param_init (app_id api_key api_secret : str) : Ws_Param :=
  {| APPID := app_id; APIKey := api_key; APISecret := api_secret;
     CommonArgs := JObj [(u "app_id", JStr app_id)];
     BusinessArgs := JObj [(u "domain", JStr (u "iat"));
                           (u "language", JStr (u "zh_cn"));
                           (u "accent", JStr (u "mandarin"))] |}.

Definition host : str := u "ws-api.xfyun.cn".
Definition url_base : str := u "wss://ws-api.xfyun.cn/v2/iat".

Definition signature_origin_of (date : str) : str :=
  u "host: ws-api.xfyun.cn" ++ 10%N :: u "date: " ++ date
  ++ 10%N :: u "GET /v2/iat HTTP/1.1".

Definition authorization_origin_of (api_key signature : str) : str :=
  u "api_key=" ++ dquote :: api_key ++ dquote ::
  u ", algorithm=" ++ dquote :: u "hmac-sha256" ++ dquote ::
  u ", headers=" ++ dquote :: u "host date request-line" ++ dquote ::
  u ", signature=" ++ dquote :: signature ++ [dquote].

(** [Ws_Param.create_url], with the clock reading [now] made explicit. *)
Definition create_url `{SignLibs} (self : Ws_Param) (now : datetime) : M str :=
  (let date := format_date_time now in
   let signature_origin := signature_origin_of date in
   key <- encode_utf8 (APISecret self) ;;
   msg <- encode_utf8 signature_origin ;;
   let signature_sha := hmac_sha256 key msg in
   let signature := b64encode signature_sha in
   let authorization_origin :=
     authorization_origin_of (APIKey self) signature in
   ao <- encode_utf8 authorization_origin ;;
   let authorization := b64encode ao in
   let v := [(u "authorization", authorization); (u "date", date);
             (u "host", host)] in
   q <- urlencode v ;;
   ret (url_base ++ 63%N :: q))%py.

Definition msg_no_credentials : str :=
  u "讯飞API凭证未完整设置，请检查环境变量。".

(** The value of a credential that passed the check. *)
Definition getenv_value (o : option str) : str :=
  match o with
  | Some s => s
  | None => []
  end.

(** [create_ws_param]: [None] unless [all([...])] of the three credentials
    holds, that is, unless each is set and non-empty. *)
Definition create_ws_param (env : credentials) : M (option Ws_Param) :=
  if negb (forallb truthy
             [XFYUN_APPID env; XFYUN_APIKEY env; XFYUN_APISECRET env])
  then (emit (Log error msg_no_credentials) ;;; ret None)%py
  else ret (Some (Ws_Param_init (getenv_value (XFYUN_APPID env))
                                (getenv_value (XFYUN_APIKEY env))
                                (getenv_value (XFYUN_APISECRET env)))).

(** ** Recognition session *)

(** A decoded response of the service. A field is [None] when the key is
    absent from the message, which is where the client's [.get] defaults
    apply. *)
Module Response.
Record cw_item := { w : option str }.
Record ws_item := { cw : option (list cw_item) }.
Record result_t := { ws : option (list ws_item) }.
Record data_t := { status : option Z; result : option result_t }.
Record t := { code : option Z; message : option str; data : option data_t }.
End Response.

(** What one [ws.recv()] followed by [json.loads] yields: a message that
    fits the response schema, or an exception with its text. After an
    orderly close [ws.recv()] returns the empty string and [json.loads]
    raises on it; a payload that does not parse or does not fit the schema
    raises as well. *)
Inductive recv :=
| Message (msg : Response.t)
| RecvRaises (e : str).

(** The far end of one connection. *)
Record server := {
  (** whether [create_connection] succeeds, or the exception it raises *)
  accepts : result unit;
  (** how many [ws.send] calls go through before the connection breaks *)
  sends_accepted : nat;
  (** the text of the exception that the first failing [ws.send] raises *)
  send_error : str;
  (** the successive outcomes of [ws.recv()]; after the last one the
      socket is found dead and [ws.recv()] raises [ConnectionClosed]. A
      receive that blocks for ever (the source sets no timeout) is not
      represented: a run is one in which every [ws.recv()] comes back. *)
  replies : list recv
}.

(** The text of the exception that [ws.recv()] raises on a dead socket. *)
Definition ConnectionClosed : str :=
  u "Connection to remote host was lost.".

Definition msg_recognition_error (m : str) : str := u "识别错误: " ++ m.
Definition msg_unknown_error : str := u "未知错误".
Definition msg_network_error (e : str) : str :=
  u "处理音频时发生网络或协议错误: " ++ e.

(** [[w.get("w", '') for item in result.get("ws", []) for w in
    item.get("cw", [])]] *)
Definition words_of (result : option Response.result_t) : list str :=
  let ws := match result with
            | Some r => match Response.ws r with Some l => l | None => [] end
            | None => []
            end in
  flat_map (fun item =>
              map (fun w => match Response.w w with
                            | Some s => s
                            | None => []
                            end)
                  (match Response.cw item with Some l => l | None => [] end))
           ws.

(** The [while True] receive loop of [process_audio]; returns the value of
    [final_result] when the loop is left by [break]. *)
Fixpoint recv_loop (incoming : list recv) (final_result : str) : M str :=
  match incoming with
  | [] => raise ConnectionClosed
  | RecvRaises e :: _ => raise e
  | Message msg :: rest =>
    if negb (option_Z_eqb (Response.code msg) 0) then
      (emit (Log error (msg_recognition_error
                          (match Response.message msg with
                           | Some m => m
                           | None => msg_unknown_error
                           end))) ;;;
       ret final_result)%py
    else
      let data := Response.data msg in
      let result := match data with
                    | Some d => Response.result d
                    | None => None
                    end in
      let words := words_of result in
      let final_result := final_result ++ concat words in
      if option_Z_eqb (match data with
                       | Some d => Response.status d
                       | None => None
                       end) 2
      then ret final_result
      else recv_loop rest final_result
  end.

(** [ws.send(json.dumps(frame))], the [i]-th send on the connection. *)
Definition ws_send (srv : server) (i : nat) (frame : json) : M unit :=
  if (i <? sends_accepted srv)%nat then emit (WsSend frame)
  else raise (send_error srv).

Definition start_frame (ws_param : Ws_Param) : json :=
  JObj [(u "common", CommonArgs ws_param);
        (u "business", BusinessArgs ws_param);
        (u "data", JObj [(u "status", JInt 0)])].

Definition data_frame (audio_data : bytes) : json :=
  JObj [(u "data", JObj [(u "status", JInt 1);
                         (u "audio", JStr (b64encode audio_data))])].

Definition end_frame : json :=
  JObj [(u "data", JObj [(u "status", JInt 2)])].

(** The [try] block of [process_audio]. *)
Definition session (srv : server) (ws_param : Ws_Param) (ws_url : str)
  (audio_data : bytes) : M unit :=
  (emit (WsConnect ws_url) ;;;
   match accepts srv with
   | Raise e => raise e
   | Ok _ =>
     ws_send srv 0 (start_frame ws_param) ;;;
     ws_send srv 1 (data_frame audio_data) ;;;
     ws_send srv 2 end_frame ;;;
     final_result <- recv_loop (replies srv) [] ;;
     emit WsClose ;;;
     (handle_final_result final_result, Ok tt)
   end)%py.

(** [process_audio], run on its own thread with the recorded audio. The
    result [Raise] stands for an exception that escapes the function:
    [create_url] runs before the [try]. *)
Definition process_audio `{SignLibs} (env : credentials) (now : datetime)
  (srv : server) (audio_data : bytes) : M unit :=
  (ws_param <- create_ws_param env ;;
   match ws_param with
   | None => ret tt
   | Some ws_param =>
     ws_url <- create_url ws_param now ;;
     try_except (session srv ws_param ws_url audio_data)
                (fun e => emit (Log error (msg_network_error e)))
   end)%py.

(** ** Test doubles for the external libraries

    Concrete stand-ins on which the functions above can be run. *)

Module Double.

(** A stream handle as the PyAudio wrapper tracks it. Stopping a stream
    that is not running and closing a closed one return normally. *)
Record stream_state := { is_running : bool; is_open : bool }.

#[export] Instance port_audio : PortAudio := {|
  Stream := stream_state;
  PyAudio := bool;
  stop_stream := fun s =>
    if is_running s then Ok {| is_running := false; is_open := is_open s |}
    else Ok s;
  stream_close := fun s => Ok {| is_running := false; is_open := false |};
  terminate := fun _ => Ok false
|}.

Definition nearest (orig_sr target_sr : Z) (y : list Z) : list Z :=
  map (fun i => nth (Z.to_nat (Z.of_nat i * orig_sr / target_sr)) y 0)
      (seq 0 (Z.to_nat (Z.of_nat (length y) * target_sr / orig_sr))).

(** Samples stay integers and the converter picks the nearest earlier
    sample; like librosa it refuses a signal too short to yield one output
    sample. *)
#[export] Instance dsp : Dsp := {|
  float32 := Z;
  normalize := fun v => v;
  librosa_resample := fun y orig_sr target_sr =>
    match orig_sr with
    | None => Raise (u "TypeError: unsupported operand type(s)")
    | Some orig_sr =>
      if Z.of_nat (length y) * target_sr / orig_sr <? 1
      then Raise (u "Input signal is too small to resample")
      else Ok (nearest orig_sr target_sr y)
    end;
  requantize := fun v => v
|}.

(** A stereo device at the given native rate, stream not opened. *)
Definition stereo (rate : Z) (required : bool) : AudioDeviceManager :=
  {| p := true; device_index := Some 0; input_rate := Some rate;
     input_channels := Some 2; stream := None;
     resample_required := required |}.

(** The manager after [open_stream] on a stereo 48 kHz device. *)
Definition opened : AudioDeviceManager :=
  {| p := true; device_index := Some 0; input_rate := Some 48000;
     input_channels := Some 2;
     stream := Some {| is_running := true; is_open := true |};
     resample_required := true |}.

(** The same manager after [close]. *)
Definition opened_closed : AudioDeviceManager :=
  {| p := false; device_index := Some 0; input_rate := Some 48000;
     input_channels := Some 2;
     stream := Some {| is_running := false; is_open := false |};
     resample_required := true |}.


(** Three stereo frames: (100, 200), (-300, -100), (7, 8). *)
Definition frames3 : bytes :=
  [x64; x00; xc8; x00; xd4; xfe; x9c; xff; x07; x00; x08; x00].

(** Two stereo frames: (100, 200), (-300, -100). *)
Definition frames2 : bytes :=
  [x64; x00; xc8; x00; xd4; xfe; x9c; xff].

(** A fixed clock reading and a keyed hash that only mixes lengths. *)
#[export] Instance sign_libs : SignLibs := {|
  datetime := Z;
  format_date_time := fun _ => u "Wed, 04 Nov 2026 20:49:00 GMT";
  hmac_sha256 := fun key msg =>
    repeat (Int16.byte_of (Z.of_nat (length key + length msg) mod 256)) 32
|}.

(** The URL signed for key ["key"] and secret ["secret"]. *)
Definition url0 : str :=
  Eval vm_compute in
    match create_url (Ws_Param_init (u "5f9c1a2b") (u "key") (u "secret"))
                     0 with
    | (_, Ok url) => url
    | (_, Raise _) => []
    end.

Definition env : credentials :=
  {| XFYUN_APPID := Some (u "5f9c1a2b");
     XFYUN_APIKEY := Some (u "key");
     XFYUN_APISECRET := Some (u "secret") |}.

Definition words_msg (st : Z) (text : str) : recv :=
  Message {| Response.code := Some 0; Response.message := None;
             Response.data := Some {|
               Response.status := Some st;
               Response.result := Some {| Response.ws := Some [
                 {| Response.cw := Some [ {| Response.w := Some text |} ] |}
               ] |} |} |}.

Definition error_msg (c : Z) (m : str) : recv :=
  Message {| Response.code := Some c; Response.message := Some m;
             Response.data := None |}.

(** An error response that still carries recognised words. *)
Definition error_with_words (c : Z) (m text : str) : Response.t :=
  {| Response.code := Some c; Response.message := Some m;
     Response.data := Some {|
       Response.status := Some 2;
       Response.result := Some {| Response.ws := Some [
         {| Response.cw := Some [ {| Response.w := Some text |} ] |}
       ] |} |} |}.

Definition env_no_key : credentials :=
  {| XFYUN_APPID := Some (u "5f9c1a2b");
     XFYUN_APIKEY := None;
     XFYUN_APISECRET := Some (u "secret") |}.

Definition up (incoming : list recv) : server :=
  {| accepts := Ok tt; sends_accepted := 3;
     send_error := u "[Errno 32] Broken pipe"; replies := incoming |}.

End Double.

(** A back end without the wrapper's leniency, as the C library behaves:
    stopping a stream that is not running, closing a closed stream and
    terminating a library that is not initialised are errors. *)
Module Strict.

Record stream_state := { is_running : bool; is_open : bool }.

Definition stop (s : stream_state) : result stream_state :=
  if is_running s then Ok {| is_running := false; is_open := is_open s |}
  else Raise (u "[Errno -9983] Stream is stopped").

Definition close_stream (s : stream_state) : result stream_state :=
  if is_open s then Ok {| is_running := false; is_open := false |}
  else Raise (u "[Errno -9988] Invalid stream pointer").

Definition terminate_library (initialised : bool) : result bool :=
  if initialised then Ok false
  else Raise (u "[Errno -10000] PortAudio not initialized").

#[export] Instance port_audio : PortAudio := {|
  Stream := stream_state;
  PyAudio := bool;
  stop_stream := stop;
  stream_close := close_stream;
  terminate := terminate_library
|}.

(** The manager after [open_stream] on a stereo 48 kHz device. *)
Definition opened : AudioDeviceManager :=
  {| p := true; device_index := Some 0; input_rate := Some 48000;
     input_channels := Some 2;
     stream := Some {| is_running := true; is_open := true |};
     resample_required := true |}.

(** The same manager after [close]. *)
Definition opened_closed : AudioDeviceManager :=
  {| p := false; device_index := Some 0; input_rate := Some 48000;
     input_channels := Some 2;
     stream := Some {| is_running := false; is_open := false |};
     resample_required := true |}.

End Strict.


(** ** [AudioDeviceManager]: device selection and stream opening *)

(** [pyaudio.paInt16] *)
Definition FORMAT_TARGET : Z := 8.

(** The entries of a PyAudio device-info dict that the manager reads. *)
Module DeviceInfo.
Record t := {
  name : str;
  index : Z;
  defaultSampleRate : float;
  maxInputChannels : Z
}.
End DeviceInfo.

(** The device queries and stream constructor of PyAudio. [pa_open] takes
    the format, the channel count, the rate, the device index, the frames
    per buffer and the [start] flag; the manager passes its own fields as
    they are, which may still be [None]. *)
Class PortAudioDevices `{PortAudio} := {
  get_default_input_device_info : PyAudio -> result DeviceInfo.t;
  get_device_info_by_index : PyAudio -> option Z -> result DeviceInfo.t;
  pa_open : PyAudio -> Z -> option Z -> option Z -> option Z -> Z -> bool
            -> result Stream;
  start_stream : Stream -> result Stream
}.

(** [int(x)] on a float: truncation towards zero; infinities and NaN
    raise, with the text that [str(e)] gives. *)
Definition int_of_float (f : float) : result Z :=
  match FloatOps.Prim2SF f with
  | SpecFloat.S754_zero _ => Ok 0
  | SpecFloat.S754_finite s m e =>
    let a := if 0 <=? e then Z.pos m * 2 ^ e else Z.pos m / 2 ^ (- e) in
    Ok (if s then - a else a)
  | SpecFloat.S754_infinity _ =>
    Raise (u "cannot convert float infinity to integer")
  | SpecFloat.S754_nan =>
    Raise (u "cannot convert float NaN to integer")
  end.

(** [str(n)] on an integer. *)
Definition str_of_int (n : Z) : str :=
  u (DecimalString.NilEmpty.string_of_int (Z.to_int n)).

Definition msg_default_device (d : DeviceInfo.t) : str :=
  u "默认音频设备: " ++ DeviceInfo.name d ++ u " (索引: "
  ++ str_of_int (DeviceInfo.index d) ++ u ")".
Definition msg_param_device (d : DeviceInfo.t) (preferred_index : Z) : str :=
  u "使用参数指定的设备: " ++ DeviceInfo.name d ++ u " (索引: "
  ++ str_of_int preferred_index ++ u ")".
Definition msg_use_default : str := u "使用系统默认音频设备".
Definition msg_native (rate channels : Z) : str :=
  u "设备原生参数: " ++ str_of_int rate ++ u "Hz, "
  ++ str_of_int channels ++ u "通道".
Definition msg_supported : str := u "设备支持目标参数，无需重采样".
Definition msg_unsupported : str :=
  u "设备不支持目标参数，需要重采样到" ++ str_of_int RATE_TARGET
  ++ u "Hz单声道".
Definition msg_detect_failed (e : str) : str := u "设备检测失败: " ++ e.
Definition msg_opened (d : DeviceInfo.t) : str :=
  u "成功打开音频设备: " ++ DeviceInfo.name d.
Definition msg_open_failed (e : str) : str := u "打开音频流失败: " ++ e.

(** [check_device_support]: open a test stream with the given parameters,
    stop and close it; any exception means no. *)
Definition check_device_support `{PortAudioDevices}
  (self : AudioDeviceManager) (device_index : option Z)
  (rate channels format : Z) : bool :=
  match pa_open (p self) format (Some channels) (Some rate) device_index
                CHUNK_SIZE true with
  | Raise _ => false
  | Ok test_stream =>
    match stop_stream test_stream with
    | Raise _ => false
    | Ok stopped =>
      match stream_close stopped with
      | Raise _ => false
      | Ok _ => true
      end
    end
  end.

(** [select_device] from the point where [device_index] and [device_info]
    are known; [evs] is what was logged so far. *)
Definition select_device_rest `{PortAudioDevices}
  (self : AudioDeviceManager) (device_info : DeviceInfo.t)
  (evs : list event) : list event * AudioDeviceManager * bool :=
  match int_of_float (DeviceInfo.defaultSampleRate device_info) with
  | Raise e => (evs ++ [Log error (msg_detect_failed e)], self, false)
  | Ok rate =>
    let channels := DeviceInfo.maxInputChannels device_info in
    let evs := evs ++ [Log info (msg_native rate channels)] in
    if check_device_support self (device_index self) RATE_TARGET
                            CHANNELS_TARGET FORMAT_TARGET
    then (evs ++ [Log info msg_supported],
          {| p := p self; device_index := device_index self;
             input_rate := Some RATE_TARGET;
             input_channels := Some CHANNELS_TARGET;
             stream := stream self; resample_required := false |},
          true)
    else (evs ++ [Log info msg_unsupported],
          {| p := p self; device_index := device_index self;
             input_rate := Some rate;
             input_channels := Some channels;
             stream := stream self; resample_required := true |},
          true)
  end.

(** [select_device]: what is logged, the manager afterwards and the value
    returned. The [except] clause turns every exception into [False] and
    keeps the assignments made before it. *)
Definition select_device `{PortAudioDevices}
  (self : AudioDeviceManager) (preferred_index : option Z)
  : list event * AudioDeviceManager * bool :=
  match get_default_input_device_info (p self) with
  | Raise e => ([Log error (msg_detect_failed e)], self, false)
  | Ok default_device =>
    let evs := [Log info (msg_default_device default_device)] in
    let by_default :=
      select_device_rest
        {| p := p self;
           device_index := Some (DeviceInfo.index default_device);
           input_rate := input_rate self;
           input_channels := input_channels self;
           stream := stream self;
           resample_required := resample_required self |}
        default_device (evs ++ [Log info msg_use_default]) in
    match preferred_index with
    | Some i =>
      if 0 <=? i then
        let self1 :=
          {| p := p self; device_index := Some i;
             input_rate := input_rate self;
             input_channels := input_channels self;
             stream := stream self;
             resample_required := resample_required self |} in
        match get_device_info_by_index (p self) (Some i) with
        | Raise e => (evs ++ [Log error (msg_detect_failed e)], self1, false)
        | Ok device_info =>
          select_device_rest self1 device_info
            (evs ++ [Log info (msg_param_device device_info i)])
        end
      else by_default
    | None => by_default
    end
  end.

(** [open_stream] *)
Definition open_stream `{PortAudioDevices} (self : AudioDeviceManager)
  : list event * AudioDeviceManager * bool :=
  match pa_open (p self) FORMAT_TARGET (input_channels self)
                (input_rate self) (device_index self) CHUNK_SIZE false with
  | Raise e => ([Log error (msg_open_failed e)], self, false)
  | Ok s =>
    let with_stream (s' : Stream) :=
      {| p := p self; device_index := device_index self;
         input_rate := input_rate self;
         input_channels := input_channels self;
         stream := Some s';
         resample_required := resample_required self |} in
    match get_device_info_by_index (p self) (device_index self) with
    | Raise e => ([Log error (msg_open_failed e)], with_stream s, false)
    | Ok actual_device =>
      match start_stream s with
      | Raise e =>
        ([Log info (msg_opened actual_device); Log error (msg_open_failed e)],
         with_stream s, false)
      | Ok started_stream =>
        ([Log info (msg_opened actual_device)],
         with_stream started_stream, true)
      end
    end
  end.

(** ** [VoiceControlNode]: the capture loop *)

(** [capture_audio_loop] over the successive results of [stream.read],
    while the stop event stays clear. An exception of [resample_audio] is
    not caught and ends the loop. *)
Fixpoint capture_audio_loop `{PortAudio} `{Dsp}
  (audio_mgr : AudioDeviceManager) (self : node) (reads : list bytes)
  : M node :=
  match reads with
  | [] => ret self
  | raw_data :: rest =>
    (self' <- capture_step audio_mgr self raw_data ;;
     capture_audio_loop audio_mgr self' rest)%py
  end.

(** ** [VoiceControlNode]: listener and capture thread together

    Both threads work on the node inside [with self.recording_lock], so a
    run of the node is a sequence of key presses and of steps of the
    capture thread. The capture thread tests the stop event at the top of
    its loop only, before it blocks in [stream.read]; the frame that read
    returns is processed whatever happened to the stop event meanwhile. *)

Inductive input :=
| Key (k : key)
(** the capture thread evaluates [while not self.stop_event.is_set()] *)
| Check
(** the blocking [stream.read] returns and the loop body runs *)
| Read (raw_data : bytes).

(** Where the capture thread is: about to test the loop condition,
    blocked in [stream.read], or finished. *)
Inductive capture_thread :=
| AtLoopTest
| InRead
| Finished.

Record system := {
  the_node : node;
  (** [self.stop_event.is_set()] *)
  stop_event : bool;
  (** the keyboard listener is still running *)
  listening : bool;
  capture : capture_thread
}.

(** The system once [__init__] has started both threads. *)
Definition system_init : system :=
  {| the_node := node_init; stop_event := false; listening := true;
     capture := AtLoopTest |}.

Definition sets_stop_event (evs : list event) : bool :=
  existsb (fun ev => match ev with StopEventSet => true | _ => false end) evs.

(** One event of the run. A key goes to [on_key_press] while the listener
    runs, and the listener stops when the callback returns [False]. The
    loop test sends the capture thread into [stream.read] or ends it; a
    read that returns runs one body of [capture_audio_loop], and an
    exception in it ends the thread. Steps that do not fit the state of
    the thread they belong to do nothing. *)
Definition system_step `{PortAudio} `{Dsp} (audio_mgr : AudioDeviceManager)
  (sys : system) (i : input) : system * list event :=
  match i with
  | Key k =>
    if listening sys then
      let '(self', evs, continue) := on_key_press (the_node sys) k in
      ({| the_node := self';
          stop_event := stop_event sys || sets_stop_event evs;
          listening := continue;
          capture := capture sys |}, evs)
    else (sys, [])
  | Check =>
    match capture sys with
    | AtLoopTest =>
      ({| the_node := the_node sys; stop_event := stop_event sys;
          listening := listening sys;
          capture := if stop_event sys then Finished else InRead |}, [])
    | _ => (sys, [])
    end
  | Read raw_data =>
    match capture sys with
    | InRead =>
      match capture_step audio_mgr (the_node sys) raw_data with
      | (evs, Ok self') =>
        ({| the_node := self'; stop_event := stop_event sys;
            listening := listening sys; capture := AtLoopTest |}, evs)
      | (evs, Raise _) =>
        ({| the_node := the_node sys; stop_event := stop_event sys;
            listening := listening sys; capture := Finished |}, evs)
      end
    | _ => (sys, [])
    end
  end.

Fixpoint system_run `{PortAudio} `{Dsp} (audio_mgr : AudioDeviceManager)
  (sys : system) (inputs : list input) : system * list event :=
  match inputs with
  | [] => (sys, [])
  | i :: rest =>
    let (sys1, evs1) := system_step audio_mgr sys i in
    let (sys2, evs2) := system_run audio_mgr sys1 rest in
    (sys2, evs1 ++ evs2)
  end.

(** The number of space-bar presses in a run. *)
Fixpoint space_presses (inputs : list input) : nat :=
  match inputs with
  | [] => 0
  | Key KeySpace :: rest => S (space_presses rest)
  | _ :: rest => space_presses rest
  end.

(** ** Test doubles for device queries *)

Module DoubleDevices.
Import Double.

(** A built-in stereo microphone at 48 kHz (index 0, the default) and a
    USB headset that takes 16 kHz mono directly (index 1). *)
Definition builtin : DeviceInfo.t :=
  {| DeviceInfo.name := u "Built-in Microphone"; DeviceInfo.index := 0;
     DeviceInfo.defaultSampleRate := 48000.0;
     DeviceInfo.maxInputChannels := 2 |}.

Definition headset : DeviceInfo.t :=
  {| DeviceInfo.name := u "USB Headset"; DeviceInfo.index := 1;
     DeviceInfo.defaultSampleRate := 44100.0;
     DeviceInfo.maxInputChannels := 1 |}.

Definition device_of (i : option Z) : result DeviceInfo.t :=
  match i with
  | Some 0 => Ok builtin
  | Some 1 => Ok headset
  | _ => Raise (u "[Errno Invalid device info] -9996")
  end.

Definition default_device (library_up : bool) : result DeviceInfo.t :=
  if library_up then Ok builtin
  else Raise (u "No Default Input Device Available").

Definition open_device (library_up : bool) (format : Z)
  (channels rate i : option Z) (frames : Z) (start : bool)
  : result Double.stream_state :=
  match i, channels, rate with
  | Some 0, Some 2, Some 48000 | Some 1, Some 1, Some 16000
  | Some 1, Some 1, Some 44100 | None, Some 1, Some 16000 =>
    Ok {| Double.is_running := start; Double.is_open := true |}
  | _, _, _ => Raise (u "[Errno -9997] Invalid sample rate")
  end.

Definition start_device (s : Double.stream_state)
  : result Double.stream_state :=
  Ok {| Double.is_running := true; Double.is_open := Double.is_open s |}.

#[export] Instance devices : @PortAudioDevices Double.port_audio :=
  @Build_PortAudioDevices Double.port_audio
    default_device (fun _ : bool => device_of) open_device start_device.

(** A manager fresh from [__init__], with the library up or torn down. *)
Definition fresh (library_up : bool) : AudioDeviceManager :=
  @AudioDeviceManager_init Double.port_audio library_up.

(** No-resample manager used to run the capture loop. *)
Definition native : AudioDeviceManager :=
  {| p := true; device_index := Some 1; input_rate := Some 16000;
     input_channels := Some 1; stream := None;
     resample_required := false |}.

(** A manager with the target format but no device index: the library
    opens its default device, and the lookup by index raises. *)
Definition native_unlisted : AudioDeviceManager :=
  {| p := true; device_index := None; input_rate := Some 16000;
     input_channels := Some 1; stream := None;
     resample_required := false |}.

(** The same device with the resampling flag left set. *)
Definition native_flagged : AudioDeviceManager :=
  {| p := true; device_index := Some 1; input_rate := Some 16000;
     input_channels := Some 1; stream := None;
     resample_required := true |}.

End DoubleDevices.

(** ** Specification vocabulary *)

(** A table entry whose trigger phrase occurs in the transcript. *)
Definition matches (text : str) (entry : str * (float * float)) : bool :=
  str_in (fst entry) text.

(** Sequences of [n] empty recordings: start, stop, warning. *)
Definition empty_cycle : list event :=
  [Log info msg_rec_start; Log info msg_rec_stop; Log warn msg_rec_empty].

(** The average, rounded towards zero, of the [channels] samples that make
    up frame position [k] of an interleaved signal. *)
Definition channel_average (channels : nat) (audio : list Z) (k : nat) : Z :=
  Z.quot (sum (firstn channels (skipn (k * channels) audio)))
         (Z.of_nat channels).

(** The mono signal of per-position channel averages. *)
Definition mono_average (channels : nat) (audio : list Z) : list Z :=
  map (channel_average channels audio)
      (seq 0 (length audio / channels)).

(** A response the client treats as an error: its code is not [0]. *)
Definition is_error (msg : Response.t) : bool :=
  negb (option_Z_eqb (Response.code msg) 0).

(** A response that carries [status == 2]. *)
Definition is_final (msg : Response.t) : bool :=
  option_Z_eqb (match Response.data msg with
                | Some d => Response.status d
                | None => None
                end) 2.

(** The text of every ["w"] field of one response, in order. *)
Definition msg_words (msg : Response.t) : str :=
  concat (words_of (match Response.data msg with
                    | Some d => Response.result d
                    | None => None
                    end)).

(** The text the service gave for an error. *)
Definition error_text (msg : Response.t) : str :=
  match Response.message msg with
  | Some m => m
  | None => msg_unknown_error
  end.

(** A response after which the client keeps receiving. *)
Definition continues (msg : Response.t) : Prop :=
  is_error msg = false /\ is_final msg = false.

(** All three credentials are set and non-empty. *)
Definition credentials_complete (env : credentials) : bool :=
  forallb truthy [XFYUN_APPID env; XFYUN_APIKEY env; XFYUN_APISECRET env].

(** Parsing a URL back into the names of its query parameters: the text
    after the first [?], cut at every [&], each piece up to its [=]. *)
Fixpoint after_question (s : str) : str :=
  match s with
  | [] => []
  | c :: s' => if (c =? 63)%N then s' else after_question s'
  end.

Fixpoint split_amp (s : str) : list str :=
  match s with
  | [] => [[]]
  | c :: s' =>
    if (c =? 38)%N then [] :: split_amp s' else
    match split_amp s' with
    | piece :: pieces => (c :: piece) :: pieces
    | [] => [[c]]
    end
  end.

Fixpoint before_equals (s : str) : str :=
  match s with
  | [] => []
  | c :: s' => if (c =? 61)%N then [] else c :: before_equals s'
  end.

Definition query_keys (url : str) : list str :=
  map before_equals (split_amp (after_question url)).


(** The table entries that are not preceded by an entry whose trigger is
    contained in theirs. *)
Definition live_commands : list (str * (float * float)) :=
  [ (u "前进", (0.2, 0.0)); (u "向前", (0.2, 0.0)); (u "后退", (-0.2, 0.0));
    (u "左转", (0.0, 0.5)); (u "右转", (0.0, -0.5)); (u "停", (0.0, 0.0));
    (u "加速", (0.4, 0.0)); (u "减速", (0.1, 0.0)) ]%float.

(** A motion message within the limits: forward speed at most 0.4, turn
    rate at most 0.5, every other component zero. *)
Definition within_limits (t : Twist) : bool :=
  PrimFloat.leb (PrimFloat.abs (Vector3.x (linear t))) 0.4
  && PrimFloat.leb (PrimFloat.abs (Vector3.z (angular t))) 0.5
  && PrimFloat.eqb (Vector3.y (linear t)) 0
  && PrimFloat.eqb (Vector3.z (linear t)) 0
  && PrimFloat.eqb (Vector3.x (angular t)) 0
  && PrimFloat.eqb (Vector3.y (angular t)) 0.

(** A code point that [encode('utf-8')] refuses. *)
Definition surrogate (c : N) : Prop := (55296 <= c < 57344)%N.

(** The three protocol frames of a session, in order. *)
Definition three_frames (ws_param : Ws_Param) (audio_data : bytes)
  : list json :=
  [start_frame ws_param; data_frame audio_data; end_frame].

(** The parameters [create_ws_param] builds from complete credentials. *)
Definition params_of (env : credentials) : Ws_Param :=
  Ws_Param_init (getenv_value (XFYUN_APPID env))
                (getenv_value (XFYUN_APIKEY env))
                (getenv_value (XFYUN_APISECRET env)).

(** The resampling flag is only set once rate and channel count are. *)
Definition format_known `{PortAudio} (self : AudioDeviceManager) : Prop :=
  resample_required self = true ->
  (exists rate, input_rate self = Some rate) /\
  (exists channels, input_channels self = Some channels).

(** The chunk the capture loop stores for a frame. *)
Definition stored_as `{PortAudio} `{Dsp} (audio_mgr : AudioDeviceManager)
  (raw_data chunk : bytes) : Prop :=
  snd (resample_audio audio_mgr raw_data) = Ok chunk.

(** What [select_device] leaves behind, by return value: on success the
    index, rate and channel count are set, and a cleared resampling flag
    means the target format; on failure rate, channel count and flag are
    as before. Library handle and stream are never touched. *)
Definition selected `{PortAudio} (self self' : AudioDeviceManager)
  (ok : bool) : Prop :=
  p self' = p self /\ stream self' = stream self /\
  if ok then
    exists i rate channels,
      device_index self' = Some i /\
      input_rate self' = Some rate /\
      input_channels self' = Some channels /\
      (resample_required self' = false ->
       rate = RATE_TARGET /\ channels = CHANNELS_TARGET)
  else
    input_rate self' = input_rate self /\
    input_channels self' = input_channels self /\
    resample_required self' = resample_required self.

(** * Properties *)

(** ** Strings *)

Lemma startswith_spec (p s : str) :
  startswith p s = true <-> exists b, s = p ++ b.
Proof.
  revert s; induction p as [|c p IH]; intros s; simpl.
  - split; [exists s; reflexivity | reflexivity].
  - destruct s as [|d s].
    + split; [discriminate | intros [b Hb]; discriminate].
    + rewrite andb_true_iff, N.eqb_eq, IH. split.
      * intros [-> [b ->]]. exists b. reflexivity.
      * intros [b Hb]. injection Hb as -> ->. eauto.
Qed.

(** [str_in] decides the substring relation. *)
Lemma str_in_spec (p s : str) :
  str_in p s = true <-> substring p s.
Proof.
  unfold substring. induction s as [|d s IH].
  - simpl. rewrite orb_false_r, startswith_spec. split.
    + intros [b Hb]. exists [], b. exact Hb.
    + intros [a [b Hab]]. destruct a; [eauto|discriminate].
  - cbn [str_in]. rewrite orb_true_iff, startswith_spec, IH. split.
    + intros [[b Hb] | [a [b Hab]]].
      * exists [], b. exact Hb.
      * exists (d :: a), b. simpl. now rewrite Hab.
    + intros [a [b Hab]]. destruct a as [|d' a].
      * left. exists b. exact Hab.
      * right. injection Hab as _ Hab. eauto.
Qed.

(** ** Command dispatch *)

Lemma dispatch_loop_find (items : list (str * (float * float))) (text : str) :
  dispatch_loop items text =
  match find (matches text) items with
  | Some (cmd, (linear_x, angular_z)) =>
    [Log info (msg_execute cmd); Publish (twist_of linear_x angular_z);
     prompt_next]
  | None => [Log warn (msg_not_found text); prompt_next]
  end.
Proof.
  induction items as [|[cmd [lx az]] rest IH]; simpl.
  - reflexivity.
  - unfold matches at 1. simpl. destruct (str_in cmd text); [reflexivity|exact IH].
Qed.

Lemma commands_nonempty_triggers :
  find (matches []) commands = None.
Proof. vm_compute. reflexivity. Qed.

(** C2. For every transcript, [handle_final_result] walks the command table
    in declaration order and fires the first entry whose trigger phrase is
    a substring of the transcript ([find] over [commands]; [str_in] decides
    the substring relation): it logs that entry's phrase and publishes one
    message whose [linear.x] and [angular.z] are that entry's velocities
    and whose other components are zero, and nothing else. With "停"
    declared before "停止", the transcript "请停止" fires "停". When no
    phrase occurs in the transcript, a warning is logged and nothing is
    published. *)
Theorem C2_dispatch_first_match :
  (forall p s, str_in p s = true <-> substring p s) /\
  (forall c text',
     let text := c :: text' in
     handle_final_result text =
     Log info (msg_recognized text) ::
     match find (matches text) commands with
     | Some (cmd, (linear_x, angular_z)) =>
       [Log info (msg_execute cmd);
        Publish {| linear := {| Vector3.x := linear_x; Vector3.y := 0;
                                Vector3.z := 0 |};
                   angular := {| Vector3.x := 0; Vector3.y := 0;
                                 Vector3.z := angular_z |} |};
        prompt_next]
     | None => [Log warn (msg_not_found text); prompt_next]
     end) /\
  (forall text,
     published (handle_final_result text) =
     match find (matches text) commands with
     | Some (_, (linear_x, angular_z)) =>
       [{| linear := {| Vector3.x := linear_x; Vector3.y := 0;
                        Vector3.z := 0 |};
           angular := {| Vector3.x := 0; Vector3.y := 0;
                         Vector3.z := angular_z |} |}]
     | None => []
     end) /\
  (forall text,
     logged warn (handle_final_result text) =
     match find (matches text) commands with
     | Some _ => []
     | None => [match text with
                | [] => msg_empty_result
                | _ :: _ => msg_not_found text
                end]
     end) /\
  find (matches (u "请停止")) commands = Some (u "停", (0.0, 0.0))%float /\
  handle_final_result (u "请停止") =
  [Log info (u "识别结果: " ++ 34%N :: u "请停止" ++ [34%N]);
   Log info (u "✅ 执行指令: '停'");
   Publish {| linear := {| Vector3.x := 0; Vector3.y := 0; Vector3.z := 0 |};
              angular := {| Vector3.x := 0; Vector3.y := 0;
                            Vector3.z := 0 |} |};
   Log info (10%N :: u "请按 [空格键] 开始下一次录音，或按 [q] 退出。")] /\
  handle_final_result (u "向前走") =
  [Log info (u "识别结果: " ++ 34%N :: u "向前走" ++ [34%N]);
   Log info (u "✅ 执行指令: '向前'");
   Publish {| linear := {| Vector3.x := 0.2; Vector3.y := 0;
                           Vector3.z := 0 |};
              angular := {| Vector3.x := 0; Vector3.y := 0;
                            Vector3.z := 0 |} |};
   Log info (10%N :: u "请按 [空格键] 开始下一次录音，或按 [q] 退出。")] /\
  handle_final_result (u "你好") =
  [Log info (u "识别结果: " ++ 34%N :: u "你好" ++ [34%N]);
   Log warn (u "在 " ++ 34%N :: u "你好" ++ 34%N :: u " 中未找到有效指令。");
   Log info (10%N :: u "请按 [空格键] 开始下一次录音，或按 [q] 退出。")].
Proof.
  split; [exact str_in_spec|].
  split; [intros c text' text; unfold text; cbn [handle_final_result];
          f_equal; rewrite dispatch_loop_find;
          destruct (find _ commands) as [[cmd [lx az]]|]; reflexivity|].
  split.
  { intros [|c text'].
    - rewrite commands_nonempty_triggers. reflexivity.
    - cbn [handle_final_result published]. rewrite dispatch_loop_find.
      destruct (find _ commands) as [[cmd [lx az]]|]; reflexivity. }
  split.
  { intros [|c text'].
    - rewrite commands_nonempty_triggers. reflexivity.
    - cbn [handle_final_result]. rewrite dispatch_loop_find.
      destruct (find _ commands) as [[cmd [lx az]]|]; reflexivity. }
  repeat split; vm_compute; reflexivity.
Qed.


(** ** Recording toggle *)

Lemma toggle_flips (self : node) :
  is_recording (fst (fst (on_key_press self KeySpace))) =
  negb (is_recording self).
Proof. destruct self as [[] [|chunk buf]]; reflexivity. Qed.

Lemma press_space_succ (n : nat) (self : node) :
  fst (press_space (S n) self) =
  fst (press_space n (fst (fst (on_key_press self KeySpace)))).
Proof.
  cbn [press_space].
  destruct (on_key_press self KeySpace) as [[self1 evs1] b].
  cbn [fst]. destruct (press_space n self1). reflexivity.
Qed.

Lemma press_space_state (n : nat) (self : node) :
  is_recording (fst (press_space n self)) =
  if Nat.even n then is_recording self else negb (is_recording self).
Proof.
  revert self. induction n as [|n IH]; intros self.
  - reflexivity.
  - rewrite press_space_succ, IH, toggle_flips, Nat.even_succ.
    rewrite <- Nat.negb_even.
    destruct (Nat.even n), (is_recording self); reflexivity.
Qed.

Lemma press_space_unfold (n : nat) (self : node) :
  press_space (S n) self =
  (fst (press_space n (fst (fst (on_key_press self KeySpace)))),
   snd (fst (on_key_press self KeySpace))
   ++ snd (press_space n (fst (fst (on_key_press self KeySpace))))).
Proof.
  cbn [press_space].
  destruct (on_key_press self KeySpace) as [[self1 evs1] b].
  cbn [fst snd]. destruct (press_space n self1). reflexivity.
Qed.

Lemma press_space_twice (n : nat) :
  press_space (2 * n) node_init =
  (node_init, concat (repeat empty_cycle n)).
Proof.
  induction n as [|n IH].
  - reflexivity.
  - replace (2 * S n)%nat with (S (S (2 * n))) by lia.
    rewrite 2 press_space_unfold.
    change (fst (fst (on_key_press
                        (fst (fst (on_key_press node_init KeySpace)))
                        KeySpace))) with node_init.
    rewrite IH. reflexivity.
Qed.

Lemma started_app (a b : list event) :
  started (a ++ b) = started a ++ started b.
Proof.
  induction a as [|ev a IH]; [reflexivity|].
  destruct ev; cbn [app started]; rewrite IH; reflexivity.
Qed.

Lemma started_empty_cycles (n : nat) :
  started (concat (repeat empty_cycle n)) = [].
Proof.
  induction n as [|n IH]; [reflexivity|].
  cbn [repeat concat]. rewrite started_app, IH. reflexivity.
Qed.

(** C3. The space bar flips [is_recording] on every press, so from the
    initial idle state the node is idle again after every even number of
    presses. Going from idle to recording empties the buffer whatever it
    held; going from recording to idle with an empty buffer logs the
    empty-recording warning and starts no recognition thread. An even
    number of presses with no frame in between is a run of such empty
    cycles: the function is total, every cycle ends in the warning, no
    thread is started, and the node is back in its initial state. *)
Theorem C3_toggle_alternates :
  (forall self,
     is_recording (fst (fst (on_key_press self KeySpace))) =
     negb (is_recording self)) /\
  (forall n self,
     is_recording (fst (press_space n self)) =
     if Nat.even n then is_recording self else negb (is_recording self)) /\
  (forall n, is_recording (fst (press_space (2 * n) node_init)) = false) /\
  (forall buf,
     on_key_press {| is_recording := false; audio_buffer := buf |} KeySpace =
     ({| is_recording := true; audio_buffer := [] |},
      [Log info msg_rec_start], true)) /\
  on_key_press {| is_recording := true; audio_buffer := [] |} KeySpace =
  ({| is_recording := false; audio_buffer := [] |},
   [Log info msg_rec_stop; Log warn msg_rec_empty], true) /\
  (forall n,
     press_space (2 * n) node_init =
     (node_init,
      concat (repeat [Log info msg_rec_start; Log info msg_rec_stop;
                      Log warn msg_rec_empty] n))) /\
  (forall n, started (snd (press_space (2 * n) node_init)) = []).
Proof.
  split; [exact toggle_flips|].
  split; [exact press_space_state|].
  split.
  { intros n. rewrite press_space_state.
    replace (Nat.even (2 * n)) with true; [reflexivity|].
    symmetry. apply Nat.even_spec. exists n. reflexivity. }
  split; [reflexivity|].
  split; [reflexivity|].
  split; [exact press_space_twice|].
  intros n. rewrite press_space_twice. apply started_empty_cycles.
Qed.

(** ** Samples and bytes *)

Lemma byte_val_range (b : byte) : 0 <= Int16.byte_val b <= 255.
Proof.
  unfold Int16.byte_val. pose proof (Byte.to_N_bounded b). lia.
Qed.

Lemma byte_of_val (b : byte) : Int16.byte_of (Int16.byte_val b) = b.
Proof.
  unfold Int16.byte_of, Int16.byte_val.
  rewrite N2Z.id, Byte.of_to_N. reflexivity.
Qed.

Lemma byte_val_of (v : Z) :
  0 <= v <= 255 -> Int16.byte_val (Int16.byte_of v) = v.
Proof.
  intros Hv. unfold Int16.byte_of, Int16.byte_val.
  destruct (Byte.of_N (Z.to_N v)) as [b|] eqn:E.
  - apply Byte.to_of_N in E. rewrite E. lia.
  - apply Byte.of_N_None_iff in E. lia.
Qed.

Lemma decode_range (lo hi : byte) : Int16.in_range (Int16.decode lo hi).
Proof.
  unfold Int16.in_range, Int16.decode, Int16.signed.
  pose proof (byte_val_range lo). pose proof (byte_val_range hi).
  destruct (Z.ltb_spec (Int16.byte_val lo + 256 * Int16.byte_val hi) 32768);
    lia.
Qed.

Lemma encode_decode (lo hi : byte) :
  Int16.encode (Int16.decode lo hi) = [lo; hi].
Proof.
  unfold Int16.encode, Int16.decode, Int16.signed.
  pose proof (byte_val_range lo) as Hlo.
  pose proof (byte_val_range hi) as Hhi.
  set (v := Int16.byte_val lo + 256 * Int16.byte_val hi).
  assert (Hmod : (if v <? 32768 then v else v - 65536) mod 65536 = v).
  { destruct (Z.ltb_spec v 32768).
    - apply Z.mod_small. unfold v. lia.
    - replace (v - 65536) with (v + (-1) * 65536) by lia.
      rewrite Z.mod_add by lia. apply Z.mod_small. unfold v. lia. }
  rewrite Hmod.
  assert (Hl : v mod 256 = Int16.byte_val lo).
  { unfold v. Z.div_mod_to_equations. lia. }
  assert (Hh : v / 256 = Int16.byte_val hi).
  { unfold v. Z.div_mod_to_equations. lia. }
  rewrite Hl, Hh, !byte_of_val. reflexivity.
Qed.

Lemma wrap_in_range (v : Z) : Int16.in_range v -> Int16.wrap v = v.
Proof.
  unfold Int16.in_range, Int16.wrap, Int16.signed. intros Hv.
  destruct (Z.ltb_spec (v mod 65536) 32768) as [H|H].
  - destruct (Z.le_gt_cases 0 v).
    + rewrite Z.mod_small by lia. reflexivity.
    + replace v with (v + 65536 + (-1) * 65536) in H |- * at 1 by lia.
      rewrite Z.mod_add in H |- * by lia.
      rewrite Z.mod_small in H |- * by lia. lia.
  - destruct (Z.le_gt_cases 0 v).
    + rewrite Z.mod_small in H |- * by lia. lia.
    + replace (v mod 65536) with (v + 65536); [lia|].
      replace v with (v + 65536 + (-1) * 65536) at 2 by lia.
      rewrite Z.mod_add by lia. rewrite Z.mod_small by lia. reflexivity.
Qed.

Lemma wrap_range (v : Z) : Int16.in_range (Int16.wrap v).
Proof.
  unfold Int16.in_range, Int16.wrap, Int16.signed.
  pose proof (Z.mod_pos_bound v 65536 ltac:(lia)).
  destruct (Z.ltb_spec (v mod 65536) 32768); lia.
Qed.

Lemma decode_encode (v : Z) :
  Int16.in_range v ->
  exists lo hi, Int16.encode v = [lo; hi] /\ Int16.decode lo hi = v.
Proof.
  intros Hv. unfold Int16.encode. do 2 eexists. split; [reflexivity|].
  unfold Int16.decode.
  pose proof (Z.mod_pos_bound v 65536 ltac:(lia)) as Hb.
  pose proof (Z.mod_pos_bound (v mod 65536) 256 ltac:(lia)).
  assert (0 <= v mod 65536 / 256 <= 255).
  { split; [apply Z.div_pos; lia|].
    apply Z.lt_succ_r, Z.div_lt_upper_bound; lia. }
  rewrite !byte_val_of by lia.
  replace (v mod 65536 mod 256 + 256 * (v mod 65536 / 256))
    with (v mod 65536) by (Z.div_mod_to_equations; lia).
  apply (wrap_in_range v Hv).
Qed.

(** Induction over a buffer two bytes at a time. *)
Lemma bytes_pair_ind (P : bytes -> Prop) :
  P [] -> (forall b, P [b]) ->
  (forall lo hi rest, P rest -> P (lo :: hi :: rest)) ->
  forall data, P data.
Proof.
  intros H0 H1 H2.
  fix IH 1. intros [|lo [|hi rest]].
  - exact H0.
  - apply H1.
  - apply H2, IH.
Qed.

Lemma frombuffer_range (data : bytes) (audio : list Z) :
  frombuffer data = Some audio -> Forall Int16.in_range audio.
Proof.
  revert audio. induction data as [|b|lo hi rest IH] using bytes_pair_ind;
    intros audio Hfb; cbn [frombuffer] in Hfb.
  - injection Hfb as <-. constructor.
  - discriminate.
  - destruct (frombuffer rest) as [samples|]; [|discriminate].
    injection Hfb as <-. constructor; [apply decode_range | now apply IH].
Qed.

Lemma tobytes_frombuffer (data : bytes) (audio : list Z) :
  frombuffer data = Some audio -> tobytes audio = data.
Proof.
  revert audio. induction data as [|b|lo hi rest IH] using bytes_pair_ind;
    intros audio Hfb; cbn [frombuffer] in Hfb.
  - injection Hfb as <-. reflexivity.
  - discriminate.
  - destruct (frombuffer rest) as [samples|]; [|discriminate].
    injection Hfb as <-. unfold tobytes. cbn [flat_map].
    rewrite encode_decode. cbn [app]. f_equal. f_equal. now apply IH.
Qed.

Lemma frombuffer_tobytes (audio : list Z) :
  Forall Int16.in_range audio -> frombuffer (tobytes audio) = Some audio.
Proof.
  induction 1 as [|v audio Hv _ IH]; [reflexivity|].
  unfold tobytes. cbn [flat_map].
  destruct (decode_encode v Hv) as [lo [hi [-> Hd]]].
  cbn [app frombuffer]. fold (tobytes audio). rewrite IH, Hd. reflexivity.
Qed.

(** ** Downmix *)

Lemma reshape_rows (n fuel channels : nat) (audio : list Z) :
  (0 < channels)%nat -> length audio = (n * channels)%nat ->
  (n * channels <= fuel)%nat ->
  reshape fuel channels audio =
  Some (map (fun k => firstn channels (skipn (k * channels) audio))
            (seq 0 n)).
Proof.
  intros Hc. revert fuel audio.
  induction n as [|n IH]; intros fuel audio Hlen Hfuel.
  - destruct audio; [|discriminate]. destruct fuel; reflexivity.
  - destruct audio as [|a audio']; [cbn in Hlen; lia|].
    set (audio := a :: audio') in *.
    destruct fuel as [|fuel]; [cbn in Hfuel; lia|].
    unfold audio at 1. cbn [reshape]. fold audio.
    replace (length audio <? channels)%nat with false
      by (symmetry; apply Nat.ltb_ge; cbn [Nat.mul] in Hlen; lia).
    rewrite (IH fuel (skipn channels audio)).
    + cbn [map seq]. rewrite <- seq_shift, map_map. f_equal. f_equal.
      apply map_ext. intros k. rewrite skipn_skipn.
      replace (k * channels + channels)%nat with (S k * channels)%nat
        by (cbn [Nat.mul]; lia).
      reflexivity.
    + rewrite length_skipn, Hlen. cbn [Nat.mul]. lia.
    + cbn [Nat.mul] in Hfuel. lia.
Qed.

Lemma sum_bounds (row : list Z) :
  Forall Int16.in_range row ->
  -32768 * Z.of_nat (length row) <= sum row <= 32767 * Z.of_nat (length row).
Proof.
  unfold Int16.in_range.
  induction 1 as [|v row Hv _ IH]; cbn [sum fold_right length].
  - lia.
  - fold (sum row). lia.
Qed.

Lemma mean_in_range (row : list Z) :
  Forall Int16.in_range row -> (0 < length row)%nat ->
  Int16.in_range (Z.quot (sum row) (Z.of_nat (length row))).
Proof.
  intros Hrow Hlen. pose proof (sum_bounds row Hrow) as [Hlo Hhi].
  set (c := Z.of_nat (length row)) in *.
  assert (Hc : 0 < c) by (unfold c; lia).
  unfold Int16.in_range. split.
  - rewrite <- (Z.quot_mul (-32768) c) by lia.
    apply Z.quot_le_mono; lia.
  - rewrite <- (Z.quot_mul 32767 c) by lia.
    apply Z.quot_le_mono; lia.
Qed.

Lemma Forall_firstn_skipn (P : Z -> Prop) (a b : nat) (l : list Z) :
  Forall P l -> Forall P (firstn a (skipn b l)).
Proof.
  intros Hl. rewrite <- (firstn_skipn b l) in Hl.
  apply Forall_app in Hl as [_ Hl].
  rewrite <- (firstn_skipn a (skipn b l)) in Hl.
  now apply Forall_app in Hl as [Hl _].
Qed.

(** With more than one channel and whole frames, the downmix is the
    signal of per-position channel averages. *)
Lemma downmix_average (channels : Z) (audio : list Z) :
  1 < channels -> Forall Int16.in_range audio ->
  (length audio mod Z.to_nat channels = 0)%nat ->
  downmix channels audio = Ok (mono_average (Z.to_nat channels) audio).
Proof.
  intros Hc Hrange Hdiv. unfold downmix.
  replace (channels >? 1) with true by (symmetry; apply Z.gtb_lt; lia).
  set (c := Z.to_nat channels) in *.
  assert (Hc' : (0 < c)%nat) by (unfold c; lia).
  pose proof (Nat.div_mod_eq (length audio) c) as Hq.
  rewrite Hdiv, Nat.add_0_r in Hq.
  rewrite (reshape_rows (length audio / c)) by lia.
  unfold mono_average. rewrite map_map. f_equal.
  apply map_ext_in. intros k Hk. apply in_seq in Hk.
  unfold mean_int16, channel_average.
  assert (Hrow : length (firstn c (skipn (k * c) audio)) = c).
  { rewrite length_firstn, length_skipn. nia. }
  pose proof (mean_in_range (firstn c (skipn (k * c) audio))
                (Forall_firstn_skipn _ c (k * c) audio Hrange)) as Hm.
  rewrite Hrow in *. rewrite wrap_in_range; [reflexivity|].
  apply Hm. lia.
Qed.

Lemma mono_average_single (audio : list Z) : mono_average 1 audio = audio.
Proof.
  unfold mono_average. rewrite Nat.div_1_r.
  induction audio as [|a audio IH]; [reflexivity|].
  cbn [length seq map]. rewrite <- seq_shift, map_map. f_equal.
  - unfold channel_average. cbn. rewrite Z.quot_1_r. lia.
  - etransitivity; [|exact IH]. apply map_ext. intros k.
    unfold channel_average.
    replace (S k * 1)%nat with (S (k * 1)) by lia. reflexivity.
Qed.

(** The downmix of a signal of whole frames, for any channel count. *)
Lemma downmix_spec (channels : Z) (audio : list Z) :
  1 <= channels -> Forall Int16.in_range audio ->
  (length audio mod Z.to_nat channels = 0)%nat ->
  downmix channels audio = Ok (mono_average (Z.to_nat channels) audio).
Proof.
  intros Hc Hrange Hdiv. destruct (Z.eq_dec channels 1) as [->|Hne].
  - change (Z.to_nat 1) with 1%nat. rewrite mono_average_single.
    reflexivity.
  - apply downmix_average; [lia|assumption|assumption].
Qed.

Lemma mono_average_range (channels : nat) (audio : list Z) :
  (0 < channels)%nat -> Forall Int16.in_range audio ->
  (length audio mod channels = 0)%nat ->
  Forall Int16.in_range (mono_average channels audio).
Proof.
  intros Hc Hrange Hdiv. unfold mono_average.
  apply Forall_forall. intros v Hin. apply in_map_iff in Hin.
  destruct Hin as [k [<- Hk]]. apply in_seq in Hk.
  pose proof (Nat.div_mod_eq (length audio) channels) as Hq.
  rewrite Hdiv, Nat.add_0_r in Hq.
  unfold channel_average.
  assert (Hrow : length (firstn channels (skipn (k * channels) audio))
                 = channels).
  { rewrite length_firstn, length_skipn. nia. }
  pose proof (mean_in_range (firstn channels (skipn (k * channels) audio))
                (Forall_firstn_skipn _ channels (k * channels) audio Hrange))
    as Hm.
  rewrite Hrow in Hm. apply Hm. lia.
Qed.

(** ** Resampling *)

Section Resample.
Context `{PortAudio} `{Dsp}.
Variable self : AudioDeviceManager.
Variables (data : bytes) (audio0 : list Z) (channels rate : Z).
Hypothesis Hrequired : resample_required self = true.
Hypothesis Hchannels : input_channels self = Some channels.
Hypothesis Hrate : input_rate self = Some rate.
Hypothesis Hframe : frombuffer data = Some audio0.
Hypothesis Hpos : 1 <= channels.
Hypothesis Hwhole : (length audio0 mod Z.to_nat channels = 0)%nat.

(** The three ways out of [resample_audio] once resampling is required and
    the frame is well formed. *)
Lemma resample_audio_cases :
  resample_audio self data =
  let audio := mono_average (Z.to_nat channels) audio0 in
  if rate =? RATE_TARGET then ret (tobytes audio) else
  match librosa_resample (map normalize audio) (Some rate) RATE_TARGET with
  | Ok y => ret (tobytes (map (fun v => Int16.wrap (requantize v)) y))
  | Raise e => ([Log error (msg_resample_failed e)], Ok (tobytes audio))
  end.
Proof.
  unfold resample_audio. rewrite Hrequired, Hframe, Hchannels, Hrate.
  cbn [negb].
  rewrite (downmix_spec channels audio0 Hpos
             (frombuffer_range data audio0 Hframe) Hwhole).
  cbv zeta. cbn [option_Z_eqb].
  destruct (rate =? RATE_TARGET); cbn [negb]; [reflexivity|].
  unfold rate_convert.
  destruct (librosa_resample _ (Some rate) RATE_TARGET); reflexivity.
Qed.

End Resample.

(** C4. [resample_audio] returns the frame unchanged when no resampling
    is required. When it is required, the native rate differs from
    16000 Hz, the frame holds whole sample frames and the rate conversion
    succeeds, the result is obtained in three steps: the per-position
    channel average of the input, the conversion of that mono signal from
    the native rate to 16000 Hz, and the requantisation of every converted
    sample to a signed 16-bit integer. *)
Theorem C4_resample_pipeline `{PortAudio} `{Dsp}
  (self : AudioDeviceManager) (data : bytes) :
  (resample_required self = false -> resample_audio self data = ret data) /\
  (forall audio0 channels rate y,
     resample_required self = true ->
     input_channels self = Some channels ->
     input_rate self = Some rate ->
     frombuffer data = Some audio0 ->
     1 <= channels ->
     (length audio0 mod Z.to_nat channels = 0)%nat ->
     rate <> RATE_TARGET ->
     librosa_resample
       (map normalize (mono_average (Z.to_nat channels) audio0))
       (Some rate) RATE_TARGET = Ok y ->
     let out := map (fun v => Int16.wrap (requantize v)) y in
     resample_audio self data = ret (tobytes out) /\
     frombuffer (tobytes out) = Some out /\
     Forall Int16.in_range out).
Proof.
  split.
  - intros Hoff. unfold resample_audio. rewrite Hoff. reflexivity.
  - intros audio0 channels rate y Hreq Hch Hrate Hfb Hpos Hwhole Hne Hconv out.
    assert (Hout : Forall Int16.in_range out).
    { unfold out. apply Forall_forall. intros v Hin.
      apply in_map_iff in Hin. destruct Hin as [w [<- _]]. apply wrap_range. }
    split; [|split; [now apply frombuffer_tobytes | exact Hout]].
    rewrite (resample_audio_cases self data audio0 channels rate)
      by assumption.
    cbv zeta. replace (rate =? RATE_TARGET) with false
      by (symmetry; apply Z.eqb_neq; exact Hne).
    rewrite Hconv. reflexivity.
Qed.

(** C5. When the rate conversion raises, [resample_audio] does not: it
    logs the failure and returns the mono downmix of the input, at the
    native rate. *)
Theorem C5_resample_fallback `{PortAudio} `{Dsp}
  (self : AudioDeviceManager) (data : bytes) (audio0 : list Z)
  (channels rate : Z) (e : str) :
  resample_required self = true ->
  input_channels self = Some channels ->
  input_rate self = Some rate ->
  frombuffer data = Some audio0 ->
  1 <= channels ->
  (length audio0 mod Z.to_nat channels = 0)%nat ->
  rate <> RATE_TARGET ->
  librosa_resample
    (map normalize (mono_average (Z.to_nat channels) audio0))
    (Some rate) RATE_TARGET = Raise e ->
  let mono := mono_average (Z.to_nat channels) audio0 in
  resample_audio self data =
  ([Log error (msg_resample_failed e)], Ok (tobytes mono)) /\
  frombuffer (tobytes mono) = Some mono /\
  length mono = (length audio0 / Z.to_nat channels)%nat.
Proof.
  intros Hreq Hch Hrate Hfb Hpos Hwhole Hne Hconv mono.
  split; [|split].
  - rewrite (resample_audio_cases self data audio0 channels rate)
      by assumption.
    cbv zeta. replace (rate =? RATE_TARGET) with false
      by (symmetry; apply Z.eqb_neq; exact Hne).
    rewrite Hconv. reflexivity.
  - apply frombuffer_tobytes, mono_average_range;
      [lia | exact (frombuffer_range data audio0 Hfb) | exact Hwhole].
  - unfold mono, mono_average. rewrite length_map, length_seq. reflexivity.
Qed.

(** C10. When resampling is required but the native rate is already
    16000 Hz, [resample_audio] returns the per-position channel average of
    the input and nothing else: the result is the same whatever the rate
    converter is, so the converter plays no part in it. *)
Theorem C10_native_rate_downmix_only `{PortAudio} `{Dsp}
  (self : AudioDeviceManager) (data : bytes) (audio0 : list Z)
  (channels : Z) :
  resample_required self = true ->
  input_channels self = Some channels ->
  input_rate self = Some RATE_TARGET ->
  frombuffer data = Some audio0 ->
  1 <= channels ->
  (length audio0 mod Z.to_nat channels = 0)%nat ->
  let mono := mono_average (Z.to_nat channels) audio0 in
  (forall converter : Dsp,
     @resample_audio _ converter self data = ret (tobytes mono)) /\
  frombuffer (tobytes mono) = Some mono /\
  length mono = (length audio0 / Z.to_nat channels)%nat /\
  (forall k, (k < length mono)%nat ->
     nth k mono 0 =
     Z.quot (sum (firstn (Z.to_nat channels)
                         (skipn (k * Z.to_nat channels) audio0)))
            channels).
Proof.
  intros Hreq Hch Hrate Hfb Hpos Hwhole mono.
  assert (Hlen : length mono = (length audio0 / Z.to_nat channels)%nat).
  { unfold mono, mono_average. rewrite length_map, length_seq. reflexivity. }
  split; [|split; [|split]].
  - intros converter.
    rewrite (@resample_audio_cases _ converter self data audio0 channels
               RATE_TARGET) by assumption.
    reflexivity.
  - apply frombuffer_tobytes, mono_average_range;
      [lia | exact (frombuffer_range data audio0 Hfb) | exact Hwhole].
  - exact Hlen.
  - intros k Hk. unfold mono, mono_average.
    rewrite (nth_indep _ 0 (channel_average (Z.to_nat channels) audio0 0))
      by (fold (mono_average (Z.to_nat channels) audio0); exact Hk).
    rewrite map_nth, seq_nth by (rewrite <- Hlen; exact Hk).
    unfold channel_average. rewrite Z2Nat.id by lia. reflexivity.
Qed.

Lemma C4_resample_pipeline_witness :
  @resample_audio _ Double.dsp (Double.stereo 48000 false) Double.frames3
  = ret Double.frames3 /\
  @resample_audio _ Double.dsp (Double.stereo 48000 true) Double.frames3
  = ret [x96; x00].
Proof.
  split.
  - apply (proj1 (@C4_resample_pipeline _ Double.dsp (Double.stereo 48000 false)
                    Double.frames3)).
    reflexivity.
  - apply (proj2 (@C4_resample_pipeline _ Double.dsp (Double.stereo 48000 true)
                    Double.frames3)
             [100; 200; -300; -100; 7; 8] 2 48000 [150]);
      try reflexivity; try discriminate; vm_compute; congruence.
Defined.

Lemma C5_resample_fallback_witness :
  @resample_audio _ Double.dsp (Double.stereo 48000 true) Double.frames2 =
  ([Log error (msg_resample_failed
                 (u "Input signal is too small to resample"))],
   Ok [x96; x00; x38; xff]).
Proof.
  apply (@C5_resample_fallback _ Double.dsp (Double.stereo 48000 true) Double.frames2
           [100; 200; -300; -100] 2 48000
           (u "Input signal is too small to resample"));
    try reflexivity; try discriminate; vm_compute; congruence.
Defined.

Lemma C10_native_rate_downmix_only_witness :
  @resample_audio _ Double.dsp (Double.stereo 16000 true) Double.frames3 =
  ret [x96; x00; x38; xff; x07; x00].
Proof.
  apply (@C10_native_rate_downmix_only _ Double.dsp (Double.stereo 16000 true)
           Double.frames3 [100; 200; -300; -100; 7; 8] 2);
    try reflexivity; vm_compute; congruence.
Defined.

(** ** Releasing the device *)

Section Close.
Context `{PortAudio}.


End Close.




(** ** Recognition session *)

Lemma recv_loop_spec (pre : list Response.t) (last : Response.t)
  (rest : list recv) (acc : str) :
  Forall continues pre ->
  is_error last || is_final last = true ->
  recv_loop (map Message pre ++ Message last :: rest) acc =
  if is_error last
  then ([Log error (msg_recognition_error (error_text last))],
        Ok (acc ++ concat (map msg_words pre)))
  else ([], Ok (acc ++ concat (map msg_words pre) ++ msg_words last)).
Proof.
  intros Hpre Hlast. revert acc.
  induction Hpre as [|m pre [Hok Hgo] _ IH]; intros acc.
  - cbn [map app recv_loop concat]. fold (is_error last).
    destruct (is_error last) eqn:He.
    + rewrite app_nil_r. reflexivity.
    + cbn [orb] in Hlast. fold (msg_words last). fold (is_final last).
      rewrite Hlast. reflexivity.
  - cbn [map app recv_loop]. fold (is_error m). rewrite Hok.
    fold (msg_words m). fold (is_final m). rewrite Hgo. rewrite IH.
    cbn [concat]. rewrite !app_assoc. reflexivity.
Qed.

Lemma create_ws_param_complete (env : credentials) :
  credentials_complete env = true ->
  create_ws_param env =
  ret (Some (Ws_Param_init (getenv_value (XFYUN_APPID env))
                           (getenv_value (XFYUN_APIKEY env))
                           (getenv_value (XFYUN_APISECRET env)))).
Proof.
  unfold create_ws_param, credentials_complete. intros ->. reflexivity.
Qed.

(** The transcript the client hands to dispatch: the words of the received
    messages whose code is [0]. *)
Lemma transcript_filter (pre : list Response.t) (last : Response.t) :
  Forall continues pre ->
  concat (map msg_words (filter (fun m => negb (is_error m)) (pre ++ [last])))
  = concat (map msg_words pre)
    ++ (if is_error last then [] else msg_words last).
Proof.
  intros Hpre. rewrite filter_app.
  replace (filter (fun m => negb (is_error m)) pre) with pre.
  - rewrite map_app, concat_app. f_equal. cbn [filter].
    destruct (is_error last); cbn; [reflexivity|apply app_nil_r].
  - induction Hpre as [|m pre [Hok _] _ IH]; [reflexivity|].
    cbn [filter]. rewrite Hok. cbn [negb]. f_equal. exact IH.
Qed.

(** A whole run of [process_audio] on a connection that stays up until a
    closing response arrives. *)
Lemma process_audio_spec `{SignLibs} (env : credentials) (now : datetime)
  (srv : server) (audio_data : bytes) (ws_url : str)
  (pre : list Response.t) (last : Response.t) (rest : list recv) :
  credentials_complete env = true ->
  create_url (Ws_Param_init (getenv_value (XFYUN_APPID env))
                            (getenv_value (XFYUN_APIKEY env))
                            (getenv_value (XFYUN_APISECRET env))) now
  = ret ws_url ->
  accepts srv = Ok tt ->
  (3 <= sends_accepted srv)%nat ->
  replies srv = map Message pre ++ Message last :: rest ->
  Forall continues pre ->
  is_error last || is_final last = true ->
  process_audio env now srv audio_data =
  ([WsConnect ws_url;
    WsSend (start_frame (Ws_Param_init (getenv_value (XFYUN_APPID env))
                                       (getenv_value (XFYUN_APIKEY env))
                                       (getenv_value (XFYUN_APISECRET env))));
    WsSend (data_frame audio_data);
    WsSend end_frame]
   ++ (if is_error last
       then [Log error (msg_recognition_error (error_text last))]
       else [])
   ++ WsClose
   :: handle_final_result
        (concat (map msg_words
                     (filter (fun m => negb (is_error m)) (pre ++ [last])))),
   Ok tt).
Proof.
  intros Hcred Hurl Hacc Hsend Hrep Hpre Hlast.
  unfold process_audio. rewrite (create_ws_param_complete env Hcred).
  cbn [ret bind app]. rewrite Hurl. cbn [ret bind app].
  unfold session. rewrite Hacc, Hrep.
  unfold ws_send.
  replace (0 <? sends_accepted srv)%nat with true
    by (symmetry; apply Nat.ltb_lt; lia).
  replace (1 <? sends_accepted srv)%nat with true
    by (symmetry; apply Nat.ltb_lt; lia).
  replace (2 <? sends_accepted srv)%nat with true
    by (symmetry; apply Nat.ltb_lt; lia).
  rewrite (recv_loop_spec pre last rest [] Hpre Hlast).
  rewrite (transcript_filter pre last Hpre).
  destruct (is_error last); cbn; rewrite ?app_nil_r; reflexivity.
Qed.

(** C1. A session in which the service first returns the words "前进" and
    then an error response: the client logs the service's message, leaves
    the loop, closes the connection and returns normally, and it still
    publishes the motion command matched by the partial transcript. *)
Theorem C1_error_session_still_dispatches (audio_data : bytes) :
  let run := @process_audio Double.sign_libs Double.env 0
               (Double.up [Double.words_msg 1 (u "前进");
                           Double.error_msg 10165 (u "bad")])
               audio_data in
  snd run = Ok tt /\
  logged error (events run) = [msg_recognition_error (u "bad")] /\
  published (events run) = [twist_of 0.2 0.0].
Proof.
  intros run. unfold run. repeat split; vm_compute; reflexivity.
Qed.

Lemma sent_app (a b : list event) : sent (a ++ b) = sent a ++ sent b.
Proof.
  induction a as [|ev a IH]; [reflexivity|].
  destruct ev; cbn [app sent]; rewrite IH; reflexivity.
Qed.

Lemma connections_app (a b : list event) :
  connections (a ++ b) = connections a ++ connections b.
Proof.
  induction a as [|ev a IH]; [reflexivity|].
  destruct ev; cbn [app connections]; rewrite IH; reflexivity.
Qed.

(** Dispatch talks to the logger and the publisher only. *)
Lemma handle_final_result_local (text : str) :
  sent (handle_final_result text) = [] /\
  connections (handle_final_result text) = [].
Proof.
  destruct text as [|c text]; [split; reflexivity|].
  cbn [handle_final_result]. rewrite dispatch_loop_find.
  destruct (find _ commands) as [[cmd [lx az]]|]; split; reflexivity.
Qed.

(** C6, as stated, fails on an error response that carries words: the
    client leaves the loop before reading them, so the transcript is not
    the concatenation over all received messages. *)
Lemma C6_counterexample_error_words :
  ~ (forall pre last,
       Forall continues pre ->
       is_error last || is_final last = true ->
       snd (recv_loop (map Message (pre ++ [last])) []) =
       Ok (concat (map msg_words (pre ++ [last])))).
Proof.
  intros Hall.
  specialize (Hall [] (Double.error_with_words 10165 (u "bad") (u "前进"))
                   (Forall_nil _) eq_refl).
  vm_compute in Hall. discriminate Hall.
Qed.

(** C6 (amended). On a connection that is established and takes the
    sends, with complete credentials, the client sends exactly three
    frames in order: the start frame with the application id, the business
    parameters domain "iat", language "zh_cn", accent "mandarin" and
    status 0; one data frame with status 1 and the base64 text of the
    whole recording; the end frame with status 2 alone. It then receives
    up to the first response that has a code other than 0 or status 2, and
    the transcript handed to dispatch is the concatenation, in arrival
    order, of the "w" fields of the received responses whose code is 0. *)
Theorem C6_session_frames_and_transcript `{SignLibs} (env : credentials)
  (now : datetime) (srv : server) (audio_data : bytes) (ws_url : str)
  (pre : list Response.t) (last : Response.t) (rest : list recv) :
  credentials_complete env = true ->
  create_url (Ws_Param_init (getenv_value (XFYUN_APPID env))
                            (getenv_value (XFYUN_APIKEY env))
                            (getenv_value (XFYUN_APISECRET env))) now
  = ret ws_url ->
  accepts srv = Ok tt ->
  (3 <= sends_accepted srv)%nat ->
  replies srv = map Message pre ++ Message last :: rest ->
  Forall continues pre ->
  is_error last || is_final last = true ->
  let run := process_audio env now srv audio_data in
  let transcript :=
    concat (map msg_words
                (filter (fun m => negb (is_error m)) (pre ++ [last]))) in
  snd run = Ok tt /\
  connections (events run) = [ws_url] /\
  sent (events run) =
  [JObj [(u "common",
          JObj [(u "app_id", JStr (getenv_value (XFYUN_APPID env)))]);
         (u "business",
          JObj [(u "domain", JStr (u "iat"));
                (u "language", JStr (u "zh_cn"));
                (u "accent", JStr (u "mandarin"))]);
         (u "data", JObj [(u "status", JInt 0)])];
   JObj [(u "data", JObj [(u "status", JInt 1);
                          (u "audio", JStr (b64encode audio_data))])];
   JObj [(u "data", JObj [(u "status", JInt 2)])]] /\
  exists before,
    events run = before ++ WsClose :: handle_final_result transcript /\
    published before = [].
Proof.
  intros Hcred Hurl Hacc Hsend Hrep Hpre Hlast run transcript.
  unfold run.
  rewrite (process_audio_spec env now srv audio_data ws_url pre last rest)
    by assumption.
  fold transcript. cbn [snd events fst].
  destruct (handle_final_result_local transcript) as [Hs Hc].
  split; [reflexivity|]. split; [|split].
  - cbn [app connections]. rewrite connections_app. cbn [connections].
    rewrite Hc. destruct (is_error last); reflexivity.
  - cbn [app sent]. rewrite sent_app. cbn [sent]. rewrite Hs.
    destruct (is_error last); reflexivity.
  - eexists. split.
    + rewrite app_assoc. reflexivity.
    + destruct (is_error last); reflexivity.
Qed.

Lemma C6_session_frames_and_transcript_witness :
  let run := @process_audio Double.sign_libs Double.env 0
               (Double.up [Double.words_msg 1 (u "前");
                           Double.words_msg 2 (u "进")])
               [x01; x02] in
  exists before,
    events run = before ++ WsClose :: handle_final_result (u "前进") /\
    published before = [].
Proof.
  refine (proj2 (proj2 (proj2
    (@C6_session_frames_and_transcript Double.sign_libs Double.env 0
       (Double.up [Double.words_msg 1 (u "前"); Double.words_msg 2 (u "进")])
       [x01; x02]
       (match @create_url Double.sign_libs
                (Ws_Param_init (u "5f9c1a2b") (u "key") (u "secret")) 0 with
        | (_, Ok url) => url
        | (_, Raise _) => []
        end)
       [ {| Response.code := Some 0; Response.message := None;
            Response.data := Some {|
              Response.status := Some 1;
              Response.result := Some {| Response.ws := Some [
                {| Response.cw :=
                     Some [ {| Response.w := Some (u "前") |} ] |}
              ] |} |} |} ]
       {| Response.code := Some 0; Response.message := None;
          Response.data := Some {|
            Response.status := Some 2;
            Response.result := Some {| Response.ws := Some [
              {| Response.cw :=
                   Some [ {| Response.w := Some (u "进") |} ] |}
            ] |} |} |}
       [] _ _ _ _ _ _ _)))).
  - vm_compute. reflexivity.
  - vm_compute. reflexivity.
  - reflexivity.
  - cbn. lia.
  - reflexivity.
  - repeat constructor.
  - reflexivity.
Defined.

(** C8. With a credential unset or empty, [process_audio] logs the
    credentials error and returns at once: no connection is attempted, no
    frame is sent, nothing is published, and no exception leaves the
    thread. The function has no access to the recording state, so the key
    handler and the capture loop go on as before. *)
Theorem C8_missing_credentials_abort `{SignLibs} (env : credentials)
  (now : datetime) (srv : server) (audio_data : bytes) :
  credentials_complete env = false ->
  process_audio env now srv audio_data =
  ([Log error msg_no_credentials], Ok tt) /\
  connections (events (process_audio env now srv audio_data)) = [] /\
  sent (events (process_audio env now srv audio_data)) = [] /\
  published (events (process_audio env now srv audio_data)) = [].
Proof.
  intros Hcred.
  assert (Hrun : process_audio env now srv audio_data =
                 ([Log error msg_no_credentials], Ok tt)).
  { unfold process_audio, create_ws_param.
    fold (credentials_complete env). rewrite Hcred. reflexivity. }
  rewrite Hrun. repeat split.
Qed.

Lemma C8_missing_credentials_abort_witness :
  @process_audio Double.sign_libs Double.env_no_key 0
    (Double.up [Double.words_msg 2 (u "前进")]) [x01; x02] =
  ([Log error msg_no_credentials], Ok tt).
Proof.
  apply (@C8_missing_credentials_abort Double.sign_libs Double.env_no_key 0
           (Double.up [Double.words_msg 2 (u "前进")]) [x01; x02]).
  reflexivity.
Defined.

(** ** Request signing *)

(** The encoders on the standard examples. *)
Example b64encode_Man : b64encode [x4d; x61; x6e] = u "TWFu".
Proof. vm_compute. reflexivity. Qed.

Example b64encode_Ma : b64encode [x4d; x61] = u "TWE=".
Proof. vm_compute. reflexivity. Qed.

Example b64encode_M : b64encode [x4d] = u "TQ==".
Proof. vm_compute. reflexivity. Qed.

Example encode_utf8_stop :
  encode_utf8 (u "停") = ret [xe5; x81; x9c].
Proof. vm_compute. reflexivity. Qed.

Example quote_plus_date :
  quote_plus (u "Wed, 04 Nov 2026 20:49:00 GMT")
  = ret (u "Wed%2C+04+Nov+2026+20%3A49%3A00+GMT").
Proof. vm_compute. reflexivity. Qed.

Example quote_plus_base64 :
  quote_plus (u "a+b/c==") = ret (u "a%2Bb%2Fc%3D%3D").
Proof. vm_compute. reflexivity. Qed.

(** The whole URL for key ["key"], secret ["secret"] and the date
    "Wed, 04 Nov 2026 20:49:00 GMT", with the keyed hash of the test
    double (32 copies of one byte) in place of HMAC-SHA256. *)
Example create_url_test_vector :
  @create_url Double.sign_libs
    (Ws_Param_init (u "5f9c1a2b") (u "key") (u "secret")) 0
  = ret (u "wss://ws-api.xfyun.cn/v2/iat?authorization=YXBpX2tleT0ia2V5IiwgYWxnb3JpdGhtPSJobWFjLXNoYTI1NiIsIGhlYWRlcnM9Imhvc3QgZGF0ZSByZXF1ZXN0LWxpbmUiLCBzaWduYXR1cmU9IlZGUlVWRlJVVkZSVVZGUlVWRlJVVkZSVVZGUlVWRlJVVkZSVVZGUlVWRlE9Ig%3D%3D&date=Wed%2C+04+Nov+2026+20%3A49%3A00+GMT&host=ws-api.xfyun.cn").
Proof. vm_compute. reflexivity. Qed.

Lemma bind_ret_inv {A B} (m : M A) (k : A -> M B) (b : B) :
  bind m k = ret b -> exists a, m = ret a /\ k a = ret b.
Proof.
  unfold bind, ret. destruct m as [evs [a|e]]; [|discriminate].
  destruct (k a) as [evs' r] eqn:Hk. intros Heq. injection Heq as Hevs ->.
  apply app_eq_nil in Hevs as [-> ->]. exists a. split; [reflexivity|].
  exact Hk.
Qed.

Lemma split_amp_clean (a : str) :
  Forall (fun c => c <> 38%N) a -> split_amp a = [a].
Proof.
  induction 1 as [|c a Hc _ IH]; [reflexivity|].
  cbn [split_amp]. rewrite (proj2 (N.eqb_neq c 38) Hc), IH. reflexivity.
Qed.

Lemma split_amp_app (a b : str) :
  Forall (fun c => c <> 38%N) a ->
  split_amp (a ++ 38%N :: b) = a :: split_amp b.
Proof.
  induction 1 as [|c a Hc _ IH]; [reflexivity|].
  cbn [app split_amp]. rewrite (proj2 (N.eqb_neq c 38) Hc), IH. reflexivity.
Qed.

Lemma quote_byte_no_amp (b : byte) :
  Forall (fun c => c <> 38%N) (quote_byte b).
Proof. destruct b; vm_compute; repeat constructor; discriminate. Qed.

Lemma quote_plus_no_amp (s q : str) :
  quote_plus s = ret q -> Forall (fun c => c <> 38%N) q.
Proof.
  unfold quote_plus. intros Hq.
  apply bind_ret_inv in Hq as [bs [_ Hq]]. injection Hq as <-.
  induction bs as [|b bs IH]; [constructor|].
  cbn [flat_map]. apply Forall_app. split; [apply quote_byte_no_amp|exact IH].
Qed.

Lemma urlencode_three (authorization date q : str) :
  urlencode [(u "authorization", authorization); (u "date", date);
             (u "host", host)] = ret q ->
  exists qa qd,
    quote_plus authorization = ret qa /\
    quote_plus date = ret qd /\
    q = u "authorization=" ++ qa ++ u "&date=" ++ qd
        ++ u "&host=ws-api.xfyun.cn".
Proof.
  unfold urlencode. intros Hq.
  apply bind_ret_inv in Hq as [l [Hl Hq]]. injection Hq as <-.
  cbn [quote_pairs] in Hl.
  replace (quote_plus (u "authorization")) with (ret (u "authorization"))
    in Hl by (vm_compute; reflexivity).
  replace (quote_plus (u "date")) with (ret (u "date"))
    in Hl by (vm_compute; reflexivity).
  replace (quote_plus (u "host")) with (ret (u "host"))
    in Hl by (vm_compute; reflexivity).
  replace (quote_plus host) with (ret host)
    in Hl by (vm_compute; reflexivity).
  apply bind_ret_inv in Hl as [k1 [Hk1 Hl]]. injection Hk1 as <-.
  apply bind_ret_inv in Hl as [qa [Hqa Hl]].
  apply bind_ret_inv in Hl as [l1 [Hl1 Hl]]. injection Hl as <-.
  apply bind_ret_inv in Hl1 as [k2 [Hk2 Hl1]]. injection Hk2 as <-.
  apply bind_ret_inv in Hl1 as [qd [Hqd Hl1]].
  apply bind_ret_inv in Hl1 as [l2 [Hl2 Hl1]]. injection Hl1 as <-.
  injection Hl2 as <-.
  exists qa, qd. split; [exact Hqa|]. split; [exact Hqd|].
  cbn [join_amp]. change (u "authorization=") with (u "authorization" ++ [61%N]).
  change (u "&date=") with (38%N :: u "date" ++ [61%N]).
  change (u "&host=ws-api.xfyun.cn") with (38%N :: u "host" ++ 61%N :: host).
  rewrite <- !app_assoc. cbn [app]. reflexivity.
Qed.

Lemma query_keys_url (qa qd : str) :
  Forall (fun c => c <> 38%N) qa ->
  Forall (fun c => c <> 38%N) qd ->
  query_keys (url_base ++ 63%N :: u "authorization=" ++ qa ++ u "&date="
              ++ qd ++ u "&host=ws-api.xfyun.cn")
  = [u "authorization"; u "date"; u "host"].
Proof.
  intros Hqa Hqd. unfold query_keys.
  change (after_question (url_base ++ 63%N :: ?s)) with s.
  change (u "&date=") with (38%N :: u "date=").
  change (u "&host=ws-api.xfyun.cn") with (38%N :: u "host=ws-api.xfyun.cn").
  rewrite <- app_comm_cons, app_assoc.
  rewrite (split_amp_app (u "authorization=" ++ qa)).
  - rewrite app_assoc.
    rewrite (split_amp_app (u "date=" ++ qd)).
    + rewrite split_amp_clean
        by (vm_compute; repeat constructor; discriminate).
      reflexivity.
    + apply Forall_app. split; [|exact Hqd].
      vm_compute; repeat constructor; discriminate.
  - apply Forall_app. split; [|exact Hqa].
    vm_compute; repeat constructor; discriminate.
Qed.

(** C7. The signed URL depends on the API key, the API secret and the
    rendered date only: two calls that agree on them return the same
    result. When the call returns a URL, the signature is the base64 text
    of HMAC-SHA256, keyed by the encoded API secret, over the string
    "host: ws-api.xfyun.cn", newline, "date: " and the date, newline,
    "GET /v2/iat HTTP/1.1"; the authorization value is the base64 text of
    the line [api_key="<key>", algorithm="hmac-sha256", headers="host date
    request-line", signature="<signature>"], written out below with the
    API key and that signature in it; and the URL is the endpoint followed
    by the three percent-encoded query parameters authorization, date and
    host, in this order and no others. *)
Theorem C7_signed_url_deterministic `{SignLibs}
  (self : Ws_Param) (now : datetime) :
  (forall other now',
     APIKey other = APIKey self ->
     APISecret other = APISecret self ->
     format_date_time now' = format_date_time now ->
     create_url other now' = create_url self now) /\
  (forall url,
     create_url self now = ret url ->
     exists key msg ao qa qd,
       encode_utf8 (APISecret self) = ret key /\
       encode_utf8 (u "host: ws-api.xfyun.cn" ++ 10%N :: u "date: "
                    ++ format_date_time now
                    ++ 10%N :: u "GET /v2/iat HTTP/1.1") = ret msg /\
       encode_utf8 (u "api_key=" ++ 34%N :: APIKey self ++ 34%N ::
                    u ", algorithm=" ++ 34%N :: u "hmac-sha256" ++ 34%N ::
                    u ", headers=" ++ 34%N :: u "host date request-line"
                    ++ 34%N :: u ", signature=" ++ 34%N ::
                    b64encode (hmac_sha256 key msg) ++ [34%N])
       = ret ao /\
       quote_plus (b64encode ao) = ret qa /\
       quote_plus (format_date_time now) = ret qd /\
       url = u "wss://ws-api.xfyun.cn/v2/iat?authorization=" ++ qa
             ++ u "&date=" ++ qd ++ u "&host=ws-api.xfyun.cn" /\
       query_keys url = [u "authorization"; u "date"; u "host"]).
Proof.
  split.
  - intros other now' Hkey Hsecret Hdate. unfold create_url.
    rewrite Hkey, Hsecret, Hdate. reflexivity.
  - intros url Hurl. unfold create_url in Hurl.
    apply bind_ret_inv in Hurl as [key [Hkey Hurl]].
    apply bind_ret_inv in Hurl as [msg [Hmsg Hurl]].
    apply bind_ret_inv in Hurl as [ao [Hao Hurl]].
    apply bind_ret_inv in Hurl as [q [Hq Hurl]]. injection Hurl as <-.
    apply urlencode_three in Hq as (qa & qd & Hqa & Hqd & ->).
    exists key, msg, ao, qa, qd.
    repeat (split; [assumption|]).
    split.
    + reflexivity.
    + apply query_keys_url;
        [exact (quote_plus_no_amp _ _ Hqa)|exact (quote_plus_no_amp _ _ Hqd)].
Qed.

Lemma C7_signed_url_deterministic_witness :
  @create_url Double.sign_libs
    (Ws_Param_init (u "another-app") (u "key") (u "secret")) 1
  = @create_url Double.sign_libs
      (Ws_Param_init (u "5f9c1a2b") (u "key") (u "secret")) 0 /\
  query_keys Double.url0 = [u "authorization"; u "date"; u "host"].
Proof.
  pose proof (@C7_signed_url_deterministic Double.sign_libs
                (Ws_Param_init (u "5f9c1a2b") (u "key") (u "secret")) 0)
    as [Hsame Hshape].
  split.
  - apply Hsame; vm_compute; reflexivity.
  - assert (Hurl : @create_url Double.sign_libs
                     (Ws_Param_init (u "5f9c1a2b") (u "key") (u "secret")) 0
                   = ret Double.url0) by (vm_compute; reflexivity).
    destruct (Hshape Double.url0 Hurl)
      as (key & msg & ao & qa & qd & _ & _ & _ & _ & _ & _ & Hkeys).
    exact Hkeys.
Defined.

(** * Further properties of the code *)

(** ** Frames and buffers *)

Lemma frombuffer_length (data : bytes) (audio : list Z) :
  frombuffer data = Some audio -> length data = (2 * length audio)%nat.
Proof.
  revert audio. induction data as [|b|lo hi rest IH] using bytes_pair_ind;
    intros audio Hfb; cbn [frombuffer] in Hfb.
  - injection Hfb as <-. reflexivity.
  - discriminate.
  - destruct (frombuffer rest) as [samples|]; [|discriminate].
    injection Hfb as <-. cbn [length]. rewrite (IH samples eq_refl). lia.
Qed.

Lemma frombuffer_parity (data : bytes) :
  if Nat.even (length data)
  then exists audio, frombuffer data = Some audio
  else frombuffer data = None.
Proof.
  induction data as [|b|lo hi rest IH] using bytes_pair_ind.
  - exists []. reflexivity.
  - reflexivity.
  - change (Nat.even (length (lo :: hi :: rest)))
      with (Nat.even (length rest)).
    cbn [frombuffer]. destruct (Nat.even (length rest)).
    + destruct IH as [audio ->]. eexists. reflexivity.
    + rewrite IH. reflexivity.
Qed.

Lemma length_tobytes (audio : list Z) :
  length (tobytes audio) = (2 * length audio)%nat.
Proof.
  induction audio as [|v audio IH]; [reflexivity|].
  unfold tobytes in *. cbn [flat_map length app Int16.encode].
  rewrite IH. lia.
Qed.

Lemma reshape_fails (fuel channels : nat) (audio : list Z) :
  (0 < channels)%nat -> (length audio <= fuel)%nat ->
  (length audio mod channels <> 0)%nat ->
  reshape fuel channels audio = None.
Proof.
  intros Hc. revert audio. induction fuel as [|fuel IH]; intros audio Hfuel Hmod.
  - destruct audio; [|cbn in Hfuel; lia].
    cbn in Hmod. rewrite Nat.Div0.mod_0_l in Hmod. congruence.
  - destruct audio as [|a audio']; [rewrite Nat.Div0.mod_0_l in Hmod; congruence|].
    set (audio := a :: audio') in *.
    unfold audio at 1. cbn [reshape]. fold audio.
    destruct (Nat.ltb_spec (length audio) channels) as [Hlt|Hge];
      [reflexivity|].
    rewrite IH; [reflexivity| |].
    + rewrite length_skipn. unfold audio in *. cbn [length] in *. lia.
    + rewrite length_skipn.
      intros Hz. apply Hmod.
      replace (length audio) with ((length audio - channels) + 1 * channels)%nat
        by lia.
      rewrite Nat.Div0.mod_add. exact Hz.
Qed.

(** X1. On a mono device that already runs at 16000 Hz but still has the
    resampling flag set, a frame of whole samples comes back byte for
    byte. *)
Theorem resample_mono_native_identity `{PortAudio} `{Dsp}
  (self : AudioDeviceManager) (data : bytes) (channels : Z) :
  resample_required self = true ->
  input_channels self = Some channels ->
  channels <= 1 ->
  input_rate self = Some RATE_TARGET ->
  Nat.even (length data) = true ->
  resample_audio self data = ret data.
Proof.
  intros Hreq Hch Hmono Hrate Heven.
  pose proof (frombuffer_parity data) as Hfb. rewrite Heven in Hfb.
  destruct Hfb as [audio Hfb].
  unfold resample_audio. rewrite Hreq, Hfb, Hch, Hrate. cbn [negb].
  unfold downmix.
  replace (channels >? 1) with false
    by (rewrite Z.gtb_ltb; symmetry; apply Z.ltb_ge; lia).
  cbn. rewrite (tobytes_frombuffer data audio Hfb). reflexivity.
Qed.

Lemma resample_mono_native_identity_witness :
  @resample_audio _ Double.dsp DoubleDevices.native_flagged Double.frames2
  = ret Double.frames2.
Proof.
  apply (@resample_mono_native_identity Double.port_audio Double.dsp _
           Double.frames2 1); reflexivity || (cbn; lia).
Defined.

(** X2. When resampling is required, a buffer with an odd number of bytes
    and, on a multi-channel device, a buffer whose samples do not fill
    whole frames make [resample_audio] raise before the [try]: nothing is
    logged and no audio is returned. *)
Theorem resample_malformed_frame_raises `{PortAudio} `{Dsp}
  (self : AudioDeviceManager) (data : bytes) :
  resample_required self = true ->
  (Nat.even (length data) = false ->
   exists e, resample_audio self data = ([], Raise e)) /\
  (forall audio channels,
     frombuffer data = Some audio ->
     input_channels self = Some channels ->
     1 < channels ->
     (length audio mod Z.to_nat channels <> 0)%nat ->
     exists e, resample_audio self data = ([], Raise e)).
Proof.
  intros Hreq. split.
  - intros Hodd. pose proof (frombuffer_parity data) as Hfb.
    rewrite Hodd in Hfb. unfold resample_audio. rewrite Hreq, Hfb.
    eexists. reflexivity.
  - intros audio channels Hfb Hch Hmulti Hpart.
    unfold resample_audio. rewrite Hreq, Hfb, Hch. cbn [negb].
    unfold downmix.
    replace (channels >? 1) with true by (symmetry; apply Z.gtb_lt; lia).
    rewrite reshape_fails by (try assumption; lia).
    eexists. reflexivity.
Qed.

Lemma resample_malformed_frame_raises_witness :
  (exists e, @resample_audio _ Double.dsp (Double.stereo 48000 true)
               [x64; x00; xc8] = ([], Raise e)) /\
  (exists e, @resample_audio _ Double.dsp (Double.stereo 48000 true)
               [x64; x00; xc8; x00; xd4; xfe] = ([], Raise e)).
Proof.
  split.
  - apply (proj1 (@resample_malformed_frame_raises Double.port_audio
                    Double.dsp (Double.stereo 48000 true) [x64; x00; xc8]
                    eq_refl)).
    reflexivity.
  - apply (proj2 (@resample_malformed_frame_raises Double.port_audio
                    Double.dsp (Double.stereo 48000 true)
                    [x64; x00; xc8; x00; xd4; xfe] eq_refl)
             [100; 200; -300] 2); try reflexivity; vm_compute; congruence.
Defined.

(** X3. When the native rate is 16000 Hz, or when the rate conversion
    raises, the bytes returned for a frame of whole sample frames are the
    input size divided by the channel count: one 16-bit sample per frame
    position. *)
Theorem resample_downmix_size `{PortAudio} `{Dsp}
  (self : AudioDeviceManager) (data : bytes) (audio0 : list Z)
  (channels rate : Z) :
  resample_required self = true ->
  input_channels self = Some channels ->
  input_rate self = Some rate ->
  frombuffer data = Some audio0 ->
  1 <= channels ->
  (length audio0 mod Z.to_nat channels = 0)%nat ->
  (rate = RATE_TARGET \/
   exists e, librosa_resample
               (map normalize (mono_average (Z.to_nat channels) audio0))
               (Some rate) RATE_TARGET = Raise e) ->
  exists evs out,
    resample_audio self data = (evs, Ok out) /\
    (length out * Z.to_nat channels = length data)%nat.
Proof.
  intros Hreq Hch Hrate Hfb Hpos Hwhole Hexit.
  rewrite (resample_audio_cases self data audio0 channels rate)
    by assumption.
  cbv zeta.
  assert (Hsize : (length (tobytes (mono_average (Z.to_nat channels) audio0))
                   * Z.to_nat channels = length data)%nat).
  { rewrite length_tobytes, (frombuffer_length data audio0 Hfb).
    unfold mono_average. rewrite length_map, length_seq.
    pose proof (Nat.div_mod_eq (length audio0) (Z.to_nat channels)) as Hq.
    rewrite Hwhole in Hq. nia. }
  destruct Hexit as [-> | [e He]].
  - rewrite Z.eqb_refl. do 2 eexists. split; [reflexivity|exact Hsize].
  - destruct (rate =? RATE_TARGET).
    + do 2 eexists. split; [reflexivity|exact Hsize].
    + rewrite He. do 2 eexists. split; [reflexivity|exact Hsize].
Qed.

Lemma resample_downmix_size_witness :
  exists evs out,
    @resample_audio _ Double.dsp (Double.stereo 16000 true) Double.frames3
    = (evs, Ok out) /\
    (length out * 2 = 12)%nat.
Proof.
  apply (@resample_downmix_size Double.port_audio Double.dsp
           (Double.stereo 16000 true) Double.frames3
           [100; 200; -300; -100; 7; 8] 2 16000);
    try reflexivity; [cbn; lia | left; reflexivity].
Defined.

(** ** Dispatch *)

Lemma str_in_mono (p q text : str) :
  substring p q -> str_in q text = true -> str_in p text = true.
Proof.
  intros [a' [b' ->]] Hq. apply str_in_spec in Hq as [a [b ->]].
  apply str_in_spec. exists (a ++ a'), (b' ++ b).
  rewrite <- !app_assoc. reflexivity.
Qed.

Lemma published_handle_final_result (text : str) :
  published (handle_final_result text) =
  match find (matches text) commands with
  | Some (_, (linear_x, angular_z)) => [twist_of linear_x angular_z]
  | None => []
  end.
Proof.
  destruct text as [|c text'].
  - rewrite commands_nonempty_triggers. reflexivity.
  - cbn [handle_final_result published]. rewrite dispatch_loop_find.
    destruct (find _ commands) as [[cmd [lx az]]|]; reflexivity.
Qed.

Ltac in_table := repeat (first [left; reflexivity | right]).

(** The entry that fires is never one that an earlier entry shadows. *)
Lemma fired_live (text : str) (entry : str * (float * float)) :
  find (matches text) commands = Some entry -> In entry live_commands.
Proof.
  intros Hfind.
  assert (Hstop : str_in (u "停止") text = true -> str_in (u "停") text = true).
  { apply str_in_mono. exists [], (u "止"). reflexivity. }
  assert (Hleft : str_in (u "原地左转") text = true
                  -> str_in (u "左转") text = true).
  { apply str_in_mono. exists (u "原地"), []. reflexivity. }
  assert (Hright : str_in (u "原地右转") text = true
                   -> str_in (u "右转") text = true).
  { apply str_in_mono. exists (u "原地"), []. reflexivity. }
  unfold commands in Hfind. cbn [find] in Hfind. unfold matches in Hfind.
  cbn [fst] in Hfind.
  destruct (str_in (u "前进") text); [injection Hfind as <-; in_table|].
  destruct (str_in (u "向前") text); [injection Hfind as <-; in_table|].
  destruct (str_in (u "后退") text); [injection Hfind as <-; in_table|].
  destruct (str_in (u "左转") text) eqn:El; [injection Hfind as <-; in_table|].
  destruct (str_in (u "右转") text) eqn:Er; [injection Hfind as <-; in_table|].
  destruct (str_in (u "停") text) eqn:Es; [injection Hfind as <-; in_table|].
  destruct (str_in (u "停止") text); [specialize (Hstop eq_refl); discriminate|].
  destruct (str_in (u "原地左转") text);
    [specialize (Hleft eq_refl); discriminate|].
  destruct (str_in (u "原地右转") text);
    [specialize (Hright eq_refl); discriminate|].
  destruct (str_in (u "加速") text); [injection Hfind as <-; in_table|].
  destruct (str_in (u "减速") text); [injection Hfind as <-; in_table|].
  discriminate.
Qed.

(** X4. For every non-empty transcript the outcome of dispatch is either
    the not-found warning or the firing of one of eight entries: "停止",
    "原地左转" and "原地右转" never fire, because an earlier entry ("停",
    "左转", "右转") has a trigger contained in theirs. Either way the last
    thing logged is the prompt for the next recording. *)
Theorem dispatch_shadowed_entries_never_fire (c : N) (text' : str) :
  let text := c :: text' in
  (exists cmd linear_x angular_z,
     In (cmd, (linear_x, angular_z)) live_commands /\
     handle_final_result text =
     [Log info (msg_recognized text); Log info (msg_execute cmd);
      Publish (twist_of linear_x angular_z); prompt_next]) \/
  handle_final_result text =
  [Log info (msg_recognized text); Log warn (msg_not_found text);
   prompt_next].
Proof.
  intros text. unfold text. cbn [handle_final_result].
  rewrite dispatch_loop_find.
  destruct (find (matches (c :: text')) commands) as [[cmd [lx az]]|] eqn:Hf.
  - left. exists cmd, lx, az. split; [|reflexivity].
    exact (fired_live _ _ Hf).
  - right. reflexivity.
Qed.

(** X5. Whatever the transcript, a published motion command stays within
    0.4 of forward speed and 0.5 of turn rate, with every other component
    zero, and at most one command is published per transcript. *)
Theorem dispatch_within_limits (text : str) :
  forallb within_limits (published (handle_final_result text)) = true /\
  (length (published (handle_final_result text)) <= 1)%nat.
Proof.
  rewrite published_handle_final_result.
  destruct (find (matches text) commands) as [[cmd [lx az]]|] eqn:Hf.
  - split; [|cbn; lia]. apply fired_live in Hf. cbn [forallb].
    rewrite andb_true_r.
    repeat (destruct Hf as [Hf|Hf];
            [injection Hf as <- <- <-; vm_compute; reflexivity|]).
    destruct Hf.
  - split; [reflexivity|cbn; lia].
Qed.

(** X6. A transcript that contains at least one trigger phrase of the
    table always publishes exactly one motion command. *)
Theorem dispatch_complete (text : str) (entry : str * (float * float)) :
  In entry commands -> substring (fst entry) text ->
  exists t, published (handle_final_result text) = [t].
Proof.
  intros Hin Hsub. rewrite published_handle_final_result.
  destruct (find (matches text) commands) as [[cmd [lx az]]|] eqn:Hf.
  - eexists. reflexivity.
  - pose proof (find_none _ _ Hf entry Hin) as Hno.
    unfold matches in Hno. apply str_in_spec in Hsub. congruence.
Qed.

Lemma dispatch_complete_witness :
  exists t, published (handle_final_result (u "请向前走然后左转")) = [t].
Proof.
  apply (dispatch_complete (u "请向前走然后左转") (u "左转", (0.0, 0.5))%float).
  - unfold commands. in_table.
  - exists (u "请向前走然后"), []. vm_compute. reflexivity.
Defined.

(** ** Recognition session: failures *)

Lemma recv_loop_continue (pre : list Response.t) (tail : list recv)
  (acc : str) :
  Forall continues pre ->
  recv_loop (map Message pre ++ tail) acc =
  recv_loop tail (acc ++ concat (map msg_words pre)).
Proof.
  intros Hpre. revert acc.
  induction Hpre as [|m pre [Hok Hgo] _ IH]; intros acc.
  - cbn [map app concat]. rewrite app_nil_r. reflexivity.
  - cbn [map app recv_loop]. fold (is_error m). rewrite Hok.
    fold (msg_words m). fold (is_final m). rewrite Hgo. cbn [negb].
    rewrite IH. cbn [concat]. rewrite app_assoc. reflexivity.
Qed.

Lemma process_audio_connected `{SignLibs} (env : credentials)
  (now : datetime) (srv : server) (audio_data : bytes) (ws_url : str) :
  credentials_complete env = true ->
  create_url (params_of env) now = ret ws_url ->
  process_audio env now srv audio_data =
  try_except (session srv (params_of env) ws_url audio_data)
             (fun e => emit (Log error (msg_network_error e))).
Proof.
  intros Hcred Hurl. unfold process_audio.
  rewrite (create_ws_param_complete env Hcred). cbn [ret bind app].
  fold (params_of env). rewrite Hurl. cbn [ret bind app].
  destruct (try_except _ _) as [evs r]. reflexivity.
Qed.

(** X7. When the connection is lost or a receive fails before a response
    with status 2 or an error code arrived, the words received so far are
    dropped: the client logs the network error and returns, without
    closing the connection and without dispatching anything. *)
Theorem recv_failure_discards_transcript `{SignLibs} (env : credentials)
  (now : datetime) (srv : server) (audio_data : bytes) (ws_url : str)
  (pre : list Response.t) (tail : list recv) (e : str) :
  credentials_complete env = true ->
  create_url (params_of env) now = ret ws_url ->
  accepts srv = Ok tt ->
  (3 <= sends_accepted srv)%nat ->
  replies srv = map Message pre ++ tail ->
  Forall continues pre ->
  (tail = [] /\ e = ConnectionClosed) \/
  (exists rest, tail = RecvRaises e :: rest) ->
  process_audio env now srv audio_data =
  ([WsConnect ws_url; WsSend (start_frame (params_of env));
    WsSend (data_frame audio_data); WsSend end_frame;
    Log error (msg_network_error e)], Ok tt).
Proof.
  intros Hcred Hurl Hacc Hsend Hrep Hpre Htail.
  rewrite (process_audio_connected env now srv audio_data ws_url)
    by assumption.
  unfold session, ws_send. rewrite Hacc, Hrep.
  replace (0 <? sends_accepted srv)%nat with true
    by (symmetry; apply Nat.ltb_lt; lia).
  replace (1 <? sends_accepted srv)%nat with true
    by (symmetry; apply Nat.ltb_lt; lia).
  replace (2 <? sends_accepted srv)%nat with true
    by (symmetry; apply Nat.ltb_lt; lia).
  rewrite (recv_loop_continue pre tail [] Hpre).
  destruct Htail as [[-> ->] | [rest ->]]; reflexivity.
Qed.

Lemma recv_failure_discards_transcript_witness :
  @process_audio Double.sign_libs Double.env 0
    (Double.up [Double.words_msg 1 (u "前进")]) [x01; x02] =
  ([WsConnect Double.url0;
    WsSend (start_frame (params_of Double.env));
    WsSend (data_frame [x01; x02]); WsSend end_frame;
    Log error (msg_network_error ConnectionClosed)], Ok tt).
Proof.
  apply (@recv_failure_discards_transcript Double.sign_libs Double.env 0
           (Double.up [Double.words_msg 1 (u "前进")]) [x01; x02]
           Double.url0
           [ {| Response.code := Some 0; Response.message := None;
                Response.data := Some {|
                  Response.status := Some 1;
                  Response.result := Some {| Response.ws := Some [
                    {| Response.cw :=
                         Some [ {| Response.w := Some (u "前进") |} ] |}
                  ] |} |} |} ]
           [] ConnectionClosed).
  - vm_compute. reflexivity.
  - vm_compute. reflexivity.
  - reflexivity.
  - cbn. lia.
  - reflexivity.
  - repeat constructor.
  - left. split; reflexivity.
Defined.

(** X8. A refused connection sends nothing, and a connection that breaks
    after [k] of the three sends has sent exactly the first [k] frames; in
    both cases nothing is received or dispatched, the text of the
    exception that was raised is logged and the function returns
    normally. *)
Theorem connection_failure_sends_prefix `{SignLibs} (env : credentials)
  (now : datetime) (srv : server) (audio_data : bytes) (ws_url : str) :
  credentials_complete env = true ->
  create_url (params_of env) now = ret ws_url ->
  (forall e, accepts srv = Raise e ->
     process_audio env now srv audio_data =
     ([WsConnect ws_url; Log error (msg_network_error e)], Ok tt)) /\
  (accepts srv = Ok tt -> (sends_accepted srv < 3)%nat ->
     process_audio env now srv audio_data =
     (WsConnect ws_url
      :: map WsSend (firstn (sends_accepted srv)
                            (three_frames (params_of env) audio_data))
      ++ [Log error (msg_network_error (send_error srv))], Ok tt)).
Proof.
  intros Hcred Hurl. split.
  - intros e Hacc.
    rewrite (process_audio_connected env now srv audio_data ws_url)
      by assumption.
    unfold session. rewrite Hacc. reflexivity.
  - intros Hacc Hk.
    rewrite (process_audio_connected env now srv audio_data ws_url)
      by assumption.
    unfold session, ws_send. rewrite Hacc.
    destruct (sends_accepted srv) as [|[|[|k]]]; [reflexivity ..|lia].
Qed.

Lemma connection_failure_sends_prefix_witness :
  @process_audio Double.sign_libs Double.env 0
    {| accepts := Raise (u "[Errno 111] Connection refused");
       sends_accepted := 3; send_error := []; replies := [] |}
    [x01; x02]
  = ([WsConnect Double.url0;
      Log error (msg_network_error (u "[Errno 111] Connection refused"))],
     Ok tt) /\
  @process_audio Double.sign_libs Double.env 0
    {| accepts := Ok tt; sends_accepted := 1;
       send_error := u "[Errno 32] Broken pipe"; replies := [] |} [x01; x02]
  = ([WsConnect Double.url0; WsSend (start_frame (params_of Double.env));
      Log error (msg_network_error (u "[Errno 32] Broken pipe"))], Ok tt).
Proof.
  pose proof (fun srv =>
    @connection_failure_sends_prefix Double.sign_libs Double.env 0 srv
      [x01; x02] Double.url0 eq_refl
      ltac:(vm_compute; reflexivity)) as Hsrv.
  split.
  - apply (proj1 (Hsrv _)). reflexivity.
  - apply (proj2 (Hsrv {| accepts := Ok tt; sends_accepted := 1;
                          send_error := u "[Errno 32] Broken pipe";
                          replies := [] |})); [reflexivity|cbn; lia].
Defined.

Lemma published_app (a b : list event) :
  published (a ++ b) = published a ++ published b.
Proof.
  induction a as [|ev a IH]; [reflexivity|].
  destruct ev; cbn [app published]; rewrite ?IH; reflexivity.
Qed.

Lemma recv_loop_logs_only (incoming : list recv) (acc : str) :
  published (fst (recv_loop incoming acc)) = [] /\
  sent (fst (recv_loop incoming acc)) = [] /\
  connections (fst (recv_loop incoming acc)) = [].
Proof.
  revert acc. induction incoming as [|[msg|e] rest IH]; intros acc.
  - repeat split.
  - cbn [recv_loop].
    destruct (negb (option_Z_eqb (Response.code msg) 0)); [repeat split|].
    destruct (option_Z_eqb _ 2); [repeat split|apply IH].
  - repeat split.
Qed.

Lemma published_at_most_one (text : str) :
  (length (published (handle_final_result text)) <= 1)%nat.
Proof.
  rewrite published_handle_final_result.
  destruct (find _ commands) as [[cmd [lx az]]|]; cbn; lia.
Qed.

(** X9. With complete credentials and a URL, whatever the far end
    answers, no exception leaves [process_audio]: everything raised inside
    the [try] is caught. The run attempts one connection, sends a prefix
    of the three frames and publishes at most one motion command. *)
Theorem session_envelope `{SignLibs} (env : credentials) (now : datetime)
  (srv : server) (audio_data : bytes) (ws_url : str) :
  credentials_complete env = true ->
  create_url (params_of env) now = ret ws_url ->
  let run := process_audio env now srv audio_data in
  (forall e, snd run <> Raise e) /\
  connections (events run) = [ws_url] /\
  (exists k, sent (events run)
             = firstn k (three_frames (params_of env) audio_data)) /\
  (length (published (events run)) <= 1)%nat.
Proof.
  intros Hcred Hurl run. unfold run.
  enough (Hrun : snd (process_audio env now srv audio_data) = Ok tt /\
                 connections (events (process_audio env now srv audio_data))
                 = [ws_url] /\
                 (exists k, sent (events (process_audio env now srv
                                            audio_data))
                            = firstn k (three_frames (params_of env)
                                                     audio_data)) /\
                 (length (published (events (process_audio env now srv
                                               audio_data))) <= 1)%nat).
  { destruct Hrun as (Hok & Hrest). split; [|exact Hrest].
    intros e. rewrite Hok. discriminate. }
  rewrite (process_audio_connected env now srv audio_data ws_url)
    by assumption.
  unfold session, ws_send.
  destruct (accepts srv) as [[]|e].
  2:{ cbn. repeat split; [exists 0%nat; reflexivity|lia]. }
  destruct (sends_accepted srv) as [|[|[|k]]].
  1:{ cbn. repeat split; [exists 0%nat; reflexivity|lia]. }
  1:{ cbn. repeat split; [exists 1%nat; reflexivity|lia]. }
  1:{ cbn. repeat split; [exists 2%nat; reflexivity|lia]. }
  change (0 <? S (S (S k)))%nat with true.
  change (1 <? S (S (S k)))%nat with true.
  change (2 <? S (S (S k)))%nat with true.
  destruct (recv_loop_logs_only (replies srv) []) as (Hp & Hs & Hc).
  destruct (recv_loop (replies srv) []) as [levs [t|e]]; cbn [fst] in *.
  - destruct (handle_final_result_local t) as [Hs' Hc'].
    pose proof (published_at_most_one t) as Hone.
    cbn [emit ret bind try_except app events fst snd].
    repeat split.
    + cbn [connections]. rewrite connections_app, Hc. cbn [app connections].
      rewrite Hc'. reflexivity.
    + exists 3%nat. cbn [sent]. rewrite sent_app, Hs. cbn [app sent].
      rewrite Hs'. reflexivity.
    + cbn [published]. rewrite published_app, Hp. cbn [app published].
      exact Hone.
  - cbn [emit ret bind try_except app events fst snd].
    repeat split.
    + cbn [connections]. rewrite connections_app, Hc. reflexivity.
    + exists 3%nat. cbn [sent]. rewrite sent_app, Hs. reflexivity.
    + cbn [published]. rewrite published_app, Hp. cbn. lia.
Qed.

Lemma session_envelope_witness :
  (length (published (events
     (@process_audio Double.sign_libs Double.env 0%Z
        (Double.up [Double.words_msg 2%Z (u "前进后退")]) [x01; x02])))
   <= 1)%nat.
Proof.
  apply (@session_envelope Double.sign_libs Double.env 0
           (Double.up [Double.words_msg 2 (u "前进后退")]) [x01; x02]
           Double.url0); vm_compute; reflexivity.
Defined.

Lemma encode_char_surrogate (c : N) : surrogate c -> encode_char c = None.
Proof.
  unfold surrogate, encode_char. intros Hc. cbv zeta.
  destruct (Z.ltb_spec (Z.of_N c) 128); [lia|].
  destruct (Z.ltb_spec (Z.of_N c) 2048); [lia|].
  destruct (Z.ltb_spec (Z.of_N c) 65536); [|lia].
  destruct (Z.leb_spec 55296 (Z.of_N c)); [|lia].
  destruct (Z.ltb_spec (Z.of_N c) 57344); [|lia].
  reflexivity.
Qed.

Lemma encode_utf8_surrogate (s : str) :
  Exists surrogate s -> encode_utf8 s = raise UnicodeEncodeError.
Proof.
  induction 1 as [c s Hc | c s _ IH]; cbn [encode_utf8].
  - rewrite (encode_char_surrogate c Hc). reflexivity.
  - destruct (encode_char c); [|reflexivity]. rewrite IH. reflexivity.
Qed.

(** X10. The URL is built before the [try]: when the API secret holds a
    code point that UTF-8 cannot encode (a lone surrogate, as [os.getenv]
    yields for undecodable bytes), [process_audio] raises
    UnicodeEncodeError out of the thread, having logged nothing and
    attempted no connection. *)
Theorem unencodable_secret_escapes `{SignLibs} (env : credentials)
  (now : datetime) (srv : server) (audio_data : bytes) :
  credentials_complete env = true ->
  Exists surrogate (getenv_value (XFYUN_APISECRET env)) ->
  process_audio env now srv audio_data = ([], Raise UnicodeEncodeError).
Proof.
  intros Hcred Hbad. unfold process_audio.
  rewrite (create_ws_param_complete env Hcred). cbn [ret bind app].
  unfold create_url. cbn [APISecret Ws_Param_init].
  rewrite (encode_utf8_surrogate _ Hbad). reflexivity.
Qed.

Lemma unencodable_secret_escapes_witness :
  @process_audio Double.sign_libs
    {| XFYUN_APPID := Some (u "5f9c1a2b"); XFYUN_APIKEY := Some (u "key");
       XFYUN_APISECRET := Some [115%N; 56575%N] |}
    0 (Double.up []) [x01; x02]
  = ([], Raise UnicodeEncodeError).
Proof.
  apply (@unencodable_secret_escapes Double.sign_libs).
  - reflexivity.
  - apply Exists_cons_tl, Exists_cons_hd. unfold surrogate. lia.
Defined.

(** X11. Nothing is read after the response that ends the loop: the run
    is the same whatever follows a response with status 2 or a code other
    than 0. *)
Theorem responses_after_final_ignored `{SignLibs} (env : credentials)
  (now : datetime) (audio_data : bytes) (connected : result unit)
  (n : nat) (failure : str) (pre : list Response.t) (last : Response.t)
  (rest : list recv) :
  Forall continues pre ->
  is_error last || is_final last = true ->
  process_audio env now
    {| accepts := connected; sends_accepted := n; send_error := failure;
       replies := map Message pre ++ Message last :: rest |} audio_data
  = process_audio env now
      {| accepts := connected; sends_accepted := n; send_error := failure;
         replies := map Message pre ++ [Message last] |} audio_data.
Proof.
  intros Hpre Hlast. unfold process_audio, session, ws_send.
  cbn [accepts sends_accepted send_error replies].
  rewrite (recv_loop_spec pre last rest [] Hpre Hlast).
  rewrite (recv_loop_spec pre last [] [] Hpre Hlast).
  reflexivity.
Qed.

Lemma responses_after_final_ignored_witness :
  @process_audio Double.sign_libs Double.env 0
    (Double.up [Double.words_msg 2 (u "停"); Double.words_msg 2 (u "前进")])
    [x01; x02]
  = @process_audio Double.sign_libs Double.env 0
      (Double.up [Double.words_msg 2 (u "停")]) [x01; x02].
Proof.
  apply (@responses_after_final_ignored Double.sign_libs Double.env 0
           [x01; x02] (Ok tt) 3 (u "[Errno 32] Broken pipe") []
           {| Response.code := Some 0; Response.message := None;
              Response.data := Some {|
                Response.status := Some 2;
                Response.result := Some {| Response.ws := Some [
                  {| Response.cw :=
                       Some [ {| Response.w := Some (u "停") |} ] |}
                ] |} |} |}
           [Double.words_msg 2 (u "前进")]).
  - constructor.
  - reflexivity.
Defined.

(** ** Capture loop and recording cycle *)

Lemma capture_recording `{PortAudio} `{Dsp}
  (audio_mgr : AudioDeviceManager) (buffer : list bytes)
  (reads chunks : list bytes) :
  Forall2 (stored_as audio_mgr) reads chunks ->
  snd (capture_audio_loop audio_mgr
         {| is_recording := true; audio_buffer := buffer |} reads)
  = Ok {| is_recording := true; audio_buffer := buffer ++ chunks |}.
Proof.
  intros Hstored. revert buffer.
  induction Hstored as [|raw chunk reads chunks Hchunk _ IH]; intros buffer.
  - cbn. rewrite app_nil_r. reflexivity.
  - cbn [capture_audio_loop]. unfold capture_step.
    cbn [is_recording audio_buffer]. unfold stored_as in Hchunk.
    destruct (resample_audio audio_mgr raw) as [evs r].
    cbn [snd] in Hchunk. subst r. cbn [bind ret app].
    specialize (IH (buffer ++ [chunk])).
    destruct (capture_audio_loop _ _ reads) as [evs' r'].
    cbn [snd] in *. rewrite IH, <- app_assoc. reflexivity.
Qed.

(** X12. While the node is idle the capture loop drops every frame it
    reads without looking at it: the state is unchanged, nothing is logged
    and nothing can raise, whatever the frames and the device format. *)
Theorem capture_idle_drops_frames `{PortAudio} `{Dsp}
  (audio_mgr : AudioDeviceManager) (self : node) (reads : list bytes) :
  is_recording self = false ->
  capture_audio_loop audio_mgr self reads = ret self.
Proof.
  intros Hidle. induction reads as [|raw rest IH]; [reflexivity|].
  cbn [capture_audio_loop]. unfold capture_step. rewrite Hidle.
  cbn [ret bind app]. rewrite IH. reflexivity.
Qed.

Lemma capture_idle_drops_frames_witness :
  @capture_audio_loop _ Double.dsp (Double.stereo 48000 true) node_init
    [[x64; x00; xc8]; Double.frames3]
  = ret node_init.
Proof.
  apply (@capture_idle_drops_frames Double.port_audio Double.dsp). reflexivity.
Defined.

(** X13. One recording cycle: the press that starts a recording discards
    whatever an earlier recording left in the buffer; the frames read
    until the next press are stored in order, each as [resample_audio]
    returned it; and that press starts one recognition thread on exactly
    their concatenation, leaving the node idle. *)
Theorem recording_cycle_hands_over_frames `{PortAudio} `{Dsp}
  (audio_mgr : AudioDeviceManager) (stale : list bytes)
  (raw : bytes) (reads : list bytes) (chunk : bytes) (chunks : list bytes) :
  Forall2 (stored_as audio_mgr) (raw :: reads) (chunk :: chunks) ->
  let idle := {| is_recording := false; audio_buffer := stale |} in
  let started_node := fst (fst (on_key_press idle KeySpace)) in
  let recorded := {| is_recording := true;
                     audio_buffer := chunk :: chunks |} in
  snd (capture_audio_loop audio_mgr started_node (raw :: reads))
  = Ok recorded /\
  on_key_press recorded KeySpace =
  ({| is_recording := false; audio_buffer := chunk :: chunks |},
   [Log info msg_rec_stop; ThreadStart (concat (chunk :: chunks))], true).
Proof.
  intros Hstored idle started_node recorded. split; [|reflexivity].
  exact (capture_recording audio_mgr [] (raw :: reads) (chunk :: chunks)
           Hstored).
Qed.

Lemma recording_cycle_hands_over_frames_witness :
  snd (@capture_audio_loop _ Double.dsp DoubleDevices.native
         {| is_recording := true; audio_buffer := [] |}
         [Double.frames2; Double.frames3])
  = Ok {| is_recording := true;
          audio_buffer := [Double.frames2; Double.frames3] |}.
Proof.
  apply (@recording_cycle_hands_over_frames Double.port_audio Double.dsp
           DoubleDevices.native [[x00]] Double.frames2 [Double.frames3]
           Double.frames2 [Double.frames3]).
  repeat constructor.
Defined.

(** X14. While recording, the first frame on which [resample_audio]
    raises ends the capture loop: the exception leaves the loop and the
    frames read after it are never stored. *)
Theorem capture_stops_at_bad_frame `{PortAudio} `{Dsp}
  (audio_mgr : AudioDeviceManager) (buffer reads chunks : list bytes)
  (raw : bytes) (later : list bytes) (e : str) :
  Forall2 (stored_as audio_mgr) reads chunks ->
  snd (resample_audio audio_mgr raw) = Raise e ->
  snd (capture_audio_loop audio_mgr
         {| is_recording := true; audio_buffer := buffer |}
         (reads ++ raw :: later))
  = Raise e.
Proof.
  intros Hstored Hraise. revert buffer.
  induction Hstored as [|raw' chunk reads chunks Hchunk _ IH]; intros buffer.
  - cbn [app capture_audio_loop]. unfold capture_step.
    cbn [is_recording]. destruct (resample_audio audio_mgr raw) as [evs r].
    cbn [snd] in Hraise. subst r. reflexivity.
  - cbn [app capture_audio_loop]. unfold capture_step.
    cbn [is_recording audio_buffer]. unfold stored_as in Hchunk.
    destruct (resample_audio audio_mgr raw') as [evs r].
    cbn [snd] in Hchunk. subst r. cbn [bind ret app].
    specialize (IH (buffer ++ [chunk])).
    destruct (capture_audio_loop _ _ (reads ++ raw :: later)) as [evs' r'].
    cbn [snd] in *. exact IH.
Qed.

Lemma capture_stops_at_bad_frame_witness :
  exists e,
    snd (@capture_audio_loop _ Double.dsp (Double.stereo 48000 true)
           {| is_recording := true; audio_buffer := [] |}
           [Double.frames3; [x64; x00; xc8]; Double.frames3])
    = Raise e.
Proof.
  eexists.
  apply (@capture_stops_at_bad_frame Double.port_audio Double.dsp
           (Double.stereo 48000 true) [] [Double.frames3] [[x96; x00]]
           [x64; x00; xc8] [Double.frames3]).
  - repeat constructor.
  - reflexivity.
Defined.

(** ** Device selection and stream opening *)

Section Devices.
Context `{PortAudioDevices}.

Lemma select_device_rest_selected (self0 self : AudioDeviceManager)
  (device_info : DeviceInfo.t) (evs : list event) (i : Z) :
  p self = p self0 -> stream self = stream self0 ->
  input_rate self = input_rate self0 ->
  input_channels self = input_channels self0 ->
  resample_required self = resample_required self0 ->
  device_index self = Some i ->
  selected self0 (snd (fst (select_device_rest self device_info evs)))
           (snd (select_device_rest self device_info evs)).
Proof.
  intros Hp Hs Hr Hc Hq Hi. unfold select_device_rest, selected.
  destruct (int_of_float _) as [rate|e]; cbn [fst snd].
  - destruct (check_device_support _ _ _ _ _); cbn [fst snd p stream
      device_index input_rate input_channels resample_required].
    + repeat split; try assumption.
      exists i, RATE_TARGET, CHANNELS_TARGET. repeat split; assumption.
    + repeat split; try assumption.
      exists i, rate, (DeviceInfo.maxInputChannels device_info).
      repeat split; try assumption; discriminate.
  - repeat split; assumption.
Qed.

Lemma select_device_selected (self : AudioDeviceManager)
  (preferred_index : option Z) :
  selected self (snd (fst (select_device self preferred_index)))
           (snd (select_device self preferred_index)).
Proof.
  unfold select_device.
  destruct (get_default_input_device_info (p self)) as [d|e].
  2:{ cbn [fst snd]. repeat split. }
  assert (Hdefault : forall evs,
    selected self
      (snd (fst (select_device_rest
                   {| p := p self;
                      device_index := Some (DeviceInfo.index d);
                      input_rate := input_rate self;
                      input_channels := input_channels self;
                      stream := stream self;
                      resample_required := resample_required self |}
                   d evs)))
      (snd (select_device_rest
              {| p := p self;
                 device_index := Some (DeviceInfo.index d);
                 input_rate := input_rate self;
                 input_channels := input_channels self;
                 stream := stream self;
                 resample_required := resample_required self |}
              d evs))).
  { intros evs.
    apply select_device_rest_selected with (i := DeviceInfo.index d);
      reflexivity. }
  destruct preferred_index as [i|]; [|apply Hdefault].
  destruct (0 <=? i); [|apply Hdefault].
  destruct (get_device_info_by_index (p self) (Some i)) as [info|e].
  - apply select_device_rest_selected with (i := i); reflexivity.
  - cbn [fst snd]. repeat split.
Qed.

End Devices.

(** X15. [select_device] never raises and never touches the library handle
    or the stream. When it returns [True] the device index, the rate and
    the channel count are all set, and a cleared resampling flag means the
    format is exactly 16000 Hz mono; when it returns [False] the rate, the
    channel count and the flag are as before. So the resampling flag is
    only ever set on a manager whose rate and channel count are known. *)
Theorem select_device_outcome `{PortAudioDevices}
  (self : AudioDeviceManager) (preferred_index : option Z) :
  let self' := snd (fst (select_device self preferred_index)) in
  let ok := snd (select_device self preferred_index) in
  selected self self' ok /\ (format_known self -> format_known self').
Proof.
  intros self' ok.
  pose proof (select_device_selected self preferred_index) as Hsel.
  fold self' ok in Hsel. split; [exact Hsel|].
  intros Hknown Hflag. destruct Hsel as (_ & _ & Hsel).
  destruct ok.
  - destruct Hsel as (i & rate & channels & _ & Hr & Hc & _). eauto.
  - destruct Hsel as (Hr & Hc & Hq). rewrite Hr, Hc.
    apply Hknown. congruence.
Qed.

Lemma select_device_outcome_witness :
  format_known (snd (fst (@select_device _ DoubleDevices.devices
                            (DoubleDevices.fresh true) (Some 5)))).
Proof.
  apply (proj2 (@select_device_outcome _ DoubleDevices.devices
                  (DoubleDevices.fresh true) (Some 5))).
  intros Hflag. discriminate Hflag.
Defined.

(** X16. Which device is chosen. The default device is queried first, so
    without one the call fails and changes nothing, even when a valid
    index was asked for. With a default device, a non-negative preferred
    index becomes the device index before it is looked up, and stays even
    if the lookup fails; an absent or negative one selects the default
    device's index. *)
Theorem select_device_choice `{PortAudioDevices}
  (self : AudioDeviceManager) (preferred_index : option Z) :
  (forall e,
     get_default_input_device_info (p self) = Raise e ->
     select_device self preferred_index =
     ([Log error (msg_detect_failed e)], self, false)) /\
  (forall d,
     get_default_input_device_info (p self) = Ok d ->
     device_index (snd (fst (select_device self preferred_index))) =
     match preferred_index with
     | Some i => if 0 <=? i then Some i else Some (DeviceInfo.index d)
     | None => Some (DeviceInfo.index d)
     end).
Proof.
  split.
  - intros e He. unfold select_device. rewrite He. reflexivity.
  - intros d Hd. unfold select_device. rewrite Hd.
    assert (Hrest : forall self1 info evs,
      device_index (snd (fst (select_device_rest self1 info evs)))
      = device_index self1).
    { intros self1 info evs. unfold select_device_rest.
      destruct (int_of_float _); [|reflexivity].
      destruct (check_device_support _ _ _ _ _); reflexivity. }
    destruct preferred_index as [i|]; [|apply Hrest].
    destruct (0 <=? i); [|apply Hrest].
    destruct (get_device_info_by_index (p self) (Some i)); [apply Hrest|].
    reflexivity.
Qed.

Lemma select_device_choice_witness :
  @select_device _ DoubleDevices.devices (DoubleDevices.fresh false) (Some 1)
  = ([Log error (msg_detect_failed
                   (u "No Default Input Device Available"))],
     DoubleDevices.fresh false, false) /\
  device_index (snd (fst (@select_device _ DoubleDevices.devices
                            (DoubleDevices.fresh true) (Some 5))))
  = Some 5.
Proof.
  split.
  - apply (proj1 (@select_device_choice _ DoubleDevices.devices
                    (DoubleDevices.fresh false) (Some 1))).
    reflexivity.
  - apply (proj2 (@select_device_choice _ DoubleDevices.devices
                    (DoubleDevices.fresh true) (Some 5))
             DoubleDevices.builtin).
    reflexivity.
Defined.

(** X17. After a successful [select_device], [resample_audio] cannot fail
    on a well-formed frame: for a buffer of whole 16-bit samples that
    fills whole frames of the selected channel count it returns audio,
    whether the device takes the target format, needs resampling, or the
    rate conversion itself raises. *)
Theorem select_then_resample_returns `{PortAudioDevices} `{Dsp}
  (self : AudioDeviceManager) (preferred_index : option Z) (data : bytes) :
  let self' := snd (fst (select_device self preferred_index)) in
  snd (select_device self preferred_index) = true ->
  Nat.even (length data) = true ->
  (forall channels,
     input_channels self' = Some channels -> 1 < channels ->
     ((length data / 2) mod Z.to_nat channels = 0)%nat) ->
  exists evs out, resample_audio self' data = (evs, Ok out).
Proof.
  intros self' Hok Heven Hwhole.
  destruct (select_device_selected self preferred_index) as (_ & _ & Hsel).
  fold self' in Hsel. rewrite Hok in Hsel.
  destruct Hsel as (i & rate & channels & _ & Hr & Hc & _).
  pose proof (frombuffer_parity data) as Hfb. rewrite Heven in Hfb.
  destruct Hfb as [audio Hfb].
  unfold resample_audio.
  destruct (resample_required self'); cbn [negb]; [|do 2 eexists; reflexivity].
  rewrite Hfb, Hc, Hr.
  assert (Hmix : exists mono, downmix channels audio = Ok mono).
  { unfold downmix. destruct (Z.gtb_spec channels 1) as [Hgt|Hle].
    - assert (Hlen : length audio = (length data / 2)%nat).
      { rewrite (frombuffer_length data audio Hfb).
        rewrite Nat.mul_comm, Nat.div_mul by lia. reflexivity. }
      specialize (Hwhole channels Hc Hgt). rewrite <- Hlen in Hwhole.
      pose proof (Nat.div_mod_eq (length audio) (Z.to_nat channels)) as Hq.
      rewrite Hwhole, Nat.add_0_r in Hq.
      rewrite (reshape_rows (length audio / Z.to_nat channels)) by lia.
      eexists. reflexivity.
    - eexists. reflexivity. }
  destruct Hmix as [mono ->].
  destruct (negb (option_Z_eqb (Some rate) RATE_TARGET));
    [|do 2 eexists; reflexivity].
  destruct (rate_convert (Some rate) mono); do 2 eexists; reflexivity.
Qed.

Lemma select_then_resample_returns_witness :
  exists evs out,
    @resample_audio _ Double.dsp
      (snd (fst (@select_device _ DoubleDevices.devices
                   (DoubleDevices.fresh true) None)))
      Double.frames3
    = (evs, Ok out).
Proof.
  apply (@select_then_resample_returns _ DoubleDevices.devices Double.dsp
           (DoubleDevices.fresh true) None Double.frames3).
  - reflexivity.
  - reflexivity.
  - intros channels Hc _. vm_compute in Hc. injection Hc as <-.
    reflexivity.
Defined.

(** X18. [open_stream] never raises and changes no field but the stream.
    It returns [True] exactly when the stream was opened (not started),
    the device was looked up and the stream was started; the manager then
    holds the started stream. If opening fails the manager is unchanged;
    if a later step fails the call returns [False] but the manager keeps
    the opened stream, which [close] will release. *)
Theorem open_stream_outcome `{PortAudioDevices} (self : AudioDeviceManager) :
  let self' := snd (fst (open_stream self)) in
  let ok := snd (open_stream self) in
  let opened := pa_open (p self) FORMAT_TARGET (input_channels self)
                        (input_rate self) (device_index self) CHUNK_SIZE
                        false in
  (p self' = p self /\ device_index self' = device_index self /\
   input_rate self' = input_rate self /\
   input_channels self' = input_channels self /\
   resample_required self' = resample_required self) /\
  match opened with
  | Raise e =>
    ok = false /\ self' = self /\
    fst (fst (open_stream self)) = [Log error (msg_open_failed e)]
  | Ok s =>
    match get_device_info_by_index (p self) (device_index self),
          start_stream s with
    | Ok _, Ok running => ok = true /\ stream self' = Some running
    | _, _ => ok = false /\ stream self' = Some s
    end
  end.
Proof.
  intros self' ok opened. unfold self', ok, opened, open_stream.
  destruct (pa_open _ _ _ _ _ _ _) as [s|e].
  - destruct (get_device_info_by_index _ _) as [d|e'].
    + destruct (start_stream s) as [running|e'']; cbn; repeat split.
    + cbn. repeat split.
  - cbn. repeat split.
Qed.

(** X19. A stream that [open_stream] managed to open is released by
    [close] even when [open_stream] itself reported failure: [close] then
    stops and closes that very stream before terminating the library. *)
Theorem failed_open_is_released_by_close `{PortAudioDevices}
  (self : AudioDeviceManager) (s s1 s2 : Stream) (pa' : PyAudio) :
  pa_open (p self) FORMAT_TARGET (input_channels self) (input_rate self)
          (device_index self) CHUNK_SIZE false = Ok s ->
  snd (open_stream self) = false ->
  stop_stream s = Ok s1 -> stream_close s1 = Ok s2 ->
  terminate (p self) = Ok pa' ->
  exists closed,
    close (snd (fst (open_stream self)))
    = ([Log info msg_released], Ok closed) /\
    stream closed = Some s2 /\ p closed = pa'.
Proof.
  intros Hopen Hfail Hstop Hclose Hterm.
  unfold open_stream in *. rewrite Hopen in *.
  destruct (get_device_info_by_index _ _) as [d|e].
  - destruct (start_stream s) as [running|e]; [discriminate Hfail|].
    cbn [fst snd]. unfold close. cbn [stream p].
    rewrite Hstop, Hclose. cbn. rewrite Hterm. cbn.
    eexists. repeat split.
  - cbn [fst snd]. unfold close. cbn [stream p].
    rewrite Hstop, Hclose. cbn. rewrite Hterm. cbn.
    eexists. repeat split.
Qed.

Lemma failed_open_is_released_by_close_witness :
  exists closed,
    close (snd (fst (@open_stream _ DoubleDevices.devices
                       DoubleDevices.native_unlisted)))
    = ([Log info msg_released], Ok closed) /\
    stream closed = Some {| Double.is_running := false;
                            Double.is_open := false |} /\
    p closed = false.
Proof.
  apply (@failed_open_is_released_by_close _ DoubleDevices.devices
           DoubleDevices.native_unlisted
           {| Double.is_running := false; Double.is_open := true |}
           {| Double.is_running := false; Double.is_open := true |});
    reflexivity.
Defined.

(** ** Listener and capture thread together *)

Lemma resample_audio_starts_nothing `{PortAudio} `{Dsp}
  (audio_mgr : AudioDeviceManager) (data : bytes) :
  started (fst (resample_audio audio_mgr data)) = [].
Proof.
  unfold resample_audio.
  destruct (negb (resample_required audio_mgr)); [reflexivity|].
  destruct (frombuffer data); [|reflexivity].
  destruct (input_channels audio_mgr); [|reflexivity].
  destruct (downmix _ _); [|reflexivity].
  destruct (negb _); [|reflexivity].
  destruct (rate_convert _ _); reflexivity.
Qed.

Lemma capture_step_inert `{PortAudio} `{Dsp}
  (audio_mgr : AudioDeviceManager) (self : node) (raw : bytes) :
  started (fst (capture_step audio_mgr self raw)) = [] /\
  forall self', snd (capture_step audio_mgr self raw) = Ok self' ->
                is_recording self' = is_recording self.
Proof.
  unfold capture_step. destruct (is_recording self) eqn:Hrec.
  - pose proof (resample_audio_starts_nothing audio_mgr raw) as Hs.
    destruct (resample_audio audio_mgr raw) as [evs [chunk|e]];
      cbn [fst snd bind ret] in *.
    + rewrite app_nil_r. split; [exact Hs|].
      intros self' Heq. injection Heq as <-. reflexivity.
    + split; [exact Hs|discriminate].
  - split; [reflexivity|]. intros self' Heq. injection Heq as <-. exact Hrec.
Qed.

Lemma capture_step_buffer `{PortAudio} `{Dsp}
  (audio_mgr : AudioDeviceManager) (self self' : node) (raw : bytes) :
  snd (capture_step audio_mgr self raw) = Ok self' ->
  audio_buffer self' = audio_buffer self \/
  exists chunk, audio_buffer self' = audio_buffer self ++ [chunk].
Proof.
  unfold capture_step. destruct (is_recording self).
  - destruct (resample_audio audio_mgr raw) as [evs [chunk|e]];
      cbn [fst snd bind ret]; [|discriminate].
    intros Heq. injection Heq as <-. right. exists chunk. reflexivity.
  - intros Heq. injection Heq as <-. left. reflexivity.
Qed.

Ltac side_condition :=
  cbn [listening stop_event capture the_node];
  first [assumption | reflexivity | discriminate | congruence].

(** Once q was handled and the capture thread is not blocked in a read,
    nothing happens any more. *)
Lemma system_run_over `{PortAudio} `{Dsp} (audio_mgr : AudioDeviceManager)
  (inputs : list input) (sys : system) :
  listening sys = false -> stop_event sys = true -> capture sys <> InRead ->
  the_node (fst (system_run audio_mgr sys inputs)) = the_node sys /\
  snd (system_run audio_mgr sys inputs) = [].
Proof.
  revert sys. induction inputs as [|i rest IH]; intros sys Hl Hs Hc;
    [split; reflexivity|].
  cbn [system_run].
  destruct i as [k| |raw]; cbn [system_step];
    [rewrite Hl
    |destruct (capture sys) eqn:Hcap; [rewrite Hs|congruence|]
    |destruct (capture sys) eqn:Hcap; [|congruence|]];
    match goal with
    | |- context [system_run audio_mgr ?s rest] =>
      destruct (IH s) as [Hn He]; [side_condition ..|];
      destruct (system_run audio_mgr s rest) as [s2 e2]
    end;
    cbn [fst snd the_node app] in *; (split; [exact Hn|exact He]).
Qed.

(** Once q was handled, at most the frame of the read in progress is still
    processed. *)
Lemma system_run_after_quit `{PortAudio} `{Dsp}
  (audio_mgr : AudioDeviceManager) (inputs : list input) (sys : system) :
  listening sys = false -> stop_event sys = true ->
  let final := the_node (fst (system_run audio_mgr sys inputs)) in
  is_recording final = is_recording (the_node sys) /\
  started (snd (system_run audio_mgr sys inputs)) = [] /\
  (audio_buffer final = audio_buffer (the_node sys) \/
   exists chunk, audio_buffer final = audio_buffer (the_node sys) ++ [chunk]).
Proof.
  intros Hl Hs.
  destruct (capture sys) eqn:Hcap.
  1,3: destruct (system_run_over audio_mgr inputs sys Hl Hs
                   ltac:(congruence)) as [Hn He];
       cbv zeta; rewrite Hn, He; repeat split; left; reflexivity.
  revert sys Hl Hs Hcap. induction inputs as [|i rest IH];
    intros sys Hl Hs Hcap; [repeat split; left; reflexivity|].
  cbn [system_run]. destruct i as [k| |raw]; cbn [system_step].
  - rewrite Hl. specialize (IH sys Hl Hs Hcap).
    destruct (system_run audio_mgr sys rest) as [s2 e2].
    cbn [fst snd app] in *. exact IH.
  - rewrite Hcap. specialize (IH sys Hl Hs Hcap).
    destruct (system_run audio_mgr sys rest) as [s2 e2].
    cbn [fst snd app] in *. exact IH.
  - rewrite Hcap. clear IH.
    destruct (capture_step_inert audio_mgr (the_node sys) raw) as [Hst Hrec].
    pose proof (capture_step_buffer audio_mgr (the_node sys)) as Hbuf.
    destruct (capture_step audio_mgr (the_node sys) raw)
      as [evs [self'|e]] eqn:Hstep; cbn [fst snd] in *.
    + specialize (Hrec self' eq_refl).
      specialize (Hbuf self' raw). rewrite Hstep in Hbuf.
      specialize (Hbuf eq_refl).
      match goal with
      | |- context [system_run audio_mgr ?s rest] =>
        destruct (system_run_over audio_mgr rest s) as [Hn He];
          [side_condition ..|];
        destruct (system_run audio_mgr s rest) as [s2 e2]
      end.
      cbn [fst snd the_node] in *. subst e2. rewrite app_nil_r, Hn.
      repeat split; [exact Hrec|exact Hst|exact Hbuf].
    + match goal with
      | |- context [system_run audio_mgr ?s rest] =>
        destruct (system_run_over audio_mgr rest s) as [Hn He];
          [side_condition ..|];
        destruct (system_run audio_mgr s rest) as [s2 e2]
      end.
      cbn [fst snd the_node] in *. subst e2. rewrite app_nil_r, Hn.
      repeat split; [exact Hst|left; reflexivity].
Qed.

(** X20. Pressing q stops the listener and sets the stop event, and leaves
    the recording state as it was, even in the middle of a recording.
    After it key presses do nothing, the recording flag no longer changes
    and no recognition thread is started, so the audio of an unfinished
    recording is never sent. The capture thread tests the stop event only
    before it reads: a read in progress when q is pressed still delivers
    its frame, which is resampled and appended while a recording is on.
    That one frame is all that can still change; when the thread is not in
    a read, nothing changes at all. *)
Theorem quit_leaves_at_most_one_frame `{PortAudio} `{Dsp}
  (audio_mgr : AudioDeviceManager) (sys : system) (later : list input) :
  listening sys = true ->
  let q := Key (KeyCode (Some 113%N)) in
  let after_q := fst (system_step audio_mgr sys q) in
  let final := the_node (fst (system_run audio_mgr after_q later)) in
  let evs := snd (system_run audio_mgr after_q later) in
  snd (system_step audio_mgr sys q)
  = [Log info msg_quit; StopEventSet; CreateTimerDestroy] /\
  (the_node after_q = the_node sys /\ stop_event after_q = true /\
   listening after_q = false /\ capture after_q = capture sys) /\
  is_recording final = is_recording (the_node sys) /\
  started evs = [] /\
  (audio_buffer final = audio_buffer (the_node sys) \/
   exists chunk, audio_buffer final = audio_buffer (the_node sys) ++ [chunk]) /\
  (capture sys <> InRead -> final = the_node sys /\ evs = []) /\
  (capture sys = InRead ->
   forall raw rest, later = Read raw :: rest ->
     match capture_step audio_mgr (the_node sys) raw with
     | (evs1, Ok self') => final = self' /\ evs = evs1
     | (evs1, Raise _) => final = the_node sys /\ evs = evs1
     end).
Proof.
  intros Hlisten q after_q final evs.
  unfold final, evs, after_q, q. clear final evs after_q q.
  cbn [system_step]. rewrite Hlisten. cbn [on_key_press fst snd the_node].
  split; [reflexivity|].
  split; [repeat split; cbn [stop_event]; apply orb_true_r|].
  match goal with
  | |- context [system_run audio_mgr ?s later] =>
    set (after_q := s);
    assert (Hl : listening after_q = false) by reflexivity;
    assert (Hs : stop_event after_q = true) by apply orb_true_r;
    assert (Hn : the_node after_q = the_node sys) by reflexivity;
    assert (Hc : capture after_q = capture sys) by reflexivity
  end.
  clearbody after_q. rewrite <- Hn, <- Hc.
  destruct (system_run_after_quit audio_mgr later after_q Hl Hs)
    as (Hrec & Hst & Hbuf).
  split; [exact Hrec|]. split; [exact Hst|]. split; [exact Hbuf|]. split.
  - intros Hcap. apply (system_run_over audio_mgr later after_q Hl Hs Hcap).
  - intros Hcap raw rest ->. cbn [system_run system_step]. rewrite Hcap.
    destruct (capture_step audio_mgr (the_node after_q) raw)
      as [evs1 [self'|e]];
      match goal with
      | |- context [system_run audio_mgr ?s rest] =>
        destruct (system_run_over audio_mgr rest s) as [Hn' He'];
          [side_condition ..|];
        destruct (system_run audio_mgr s rest) as [s2 e2]
      end;
      cbn [fst snd the_node] in *; subst e2; rewrite app_nil_r;
      (split; [exact Hn'|reflexivity]).
Qed.

Lemma quit_leaves_at_most_one_frame_witness :
  started
    (snd (@system_run _ Double.dsp DoubleDevices.native
            (fst (@system_step _ Double.dsp DoubleDevices.native
                    {| the_node := {| is_recording := true;
                                      audio_buffer := [Double.frames2] |};
                       stop_event := false; listening := true;
                       capture := InRead |}
                    (Key (KeyCode (Some 113%N)))))
            [Read Double.frames3; Key KeySpace; Check; Read Double.frames2]))
  = [].
Proof.
  pose proof (@quit_leaves_at_most_one_frame Double.port_audio Double.dsp
                DoubleDevices.native
                {| the_node := {| is_recording := true;
                                  audio_buffer := [Double.frames2] |};
                   stop_event := false; listening := true;
                   capture := InRead |}
                [Read Double.frames3; Key KeySpace; Check; Read Double.frames2]
                eq_refl) as Hq.
  cbv zeta in Hq. destruct Hq as (_ & _ & _ & Hst & _). exact Hst.
Defined.

(** The frame of the read that q interrupts is kept: with a recording on
    and the capture thread in [stream.read], the frame that arrives after
    q is appended to the buffer, and the later space-bar press and frame
    are not. *)
Example quit_during_read_keeps_frame :
  fst (@system_run _ Double.dsp DoubleDevices.native
         {| the_node := {| is_recording := true;
                           audio_buffer := [Double.frames2] |};
            stop_event := false; listening := true; capture := InRead |}
         [Key (KeyCode (Some 113%N)); Read Double.frames3; Key KeySpace;
          Check; Read Double.frames2])
  = {| the_node := {| is_recording := true;
                      audio_buffer := [Double.frames2; Double.frames3] |};
       stop_event := true; listening := false; capture := Finished |}.
Proof. vm_compute. reflexivity. Qed.

Lemma on_key_press_other (self : node) (k : key) :
  k <> KeySpace ->
  fst (fst (on_key_press self k)) = self /\
  started (snd (fst (on_key_press self k))) = [].
Proof.
  intros Hk. destruct k as [[c|]| |]; [| |congruence|];
    try (split; reflexivity).
  destruct c as [|q]; [split; reflexivity|].
  cbn [on_key_press].
  repeat (destruct q as [q|q|]; try (split; reflexivity)).
Qed.

(** X21. Over any run of key presses and frame reads, the number of
    recognition threads started is at most half the number of space-bar
    presses (plus one half when the run begins in the middle of a
    recording): a thread is only ever started by the press that ends a
    recording. *)
Theorem threads_bounded_by_presses `{PortAudio} `{Dsp}
  (audio_mgr : AudioDeviceManager) (sys : system) (inputs : list input) :
  (2 * length (started (snd (system_run audio_mgr sys inputs)))
   <= space_presses inputs
      + (if is_recording (the_node sys) then 1 else 0))%nat.
Proof.
  revert sys. induction inputs as [|i rest IH]; intros sys.
  - cbn. lia.
  - cbn [system_run]. destruct i as [k| |raw]; cbn [system_step].
    + destruct (listening sys) eqn:Hl.
      * assert (Hother : k <> KeySpace ->
                  (2 * length (started
                     (snd (let (sys1, evs1) :=
                             let '(self', evs, continue) :=
                               on_key_press (the_node sys) k in
                             ({| the_node := self';
                                 stop_event :=
                                   stop_event sys || sets_stop_event evs;
                                 listening := continue;
                                 capture := capture sys |}, evs) in
                           let (sys2, evs2) :=
                             system_run audio_mgr sys1 rest in
                           (sys2, evs1 ++ evs2))))
                   <= space_presses rest
                      + (if is_recording (the_node sys) then 1 else 0))%nat).
        { intros Hk.
          destruct (on_key_press_other (the_node sys) k Hk) as [Hn Hs].
          destruct (on_key_press (the_node sys) k) as [[self' evs] cont].
          cbn [fst snd] in Hn, Hs. subst self'.
          match goal with
          | |- context [system_run audio_mgr ?s rest] =>
            specialize (IH s);
            destruct (system_run audio_mgr s rest) as [s2 e2]
          end.
          cbn [snd the_node] in *. rewrite started_app, Hs. exact IH. }
        destruct k as [ch| |]; cbn [space_presses].
        -- apply Hother. discriminate.
        -- clear Hother. cbn [on_key_press].
           destruct (the_node sys) as [[] buf]; cbn [negb is_recording
             audio_buffer].
           ++ destruct buf as [|chunk buf];
                match goal with
                | |- context [system_run audio_mgr ?s rest] =>
                  specialize (IH s);
                  destruct (system_run audio_mgr s rest) as [s2 e2]
                end;
                cbn [snd the_node is_recording app started length] in *; lia.
           ++ match goal with
              | |- context [system_run audio_mgr ?s rest] =>
                specialize (IH s);
                destruct (system_run audio_mgr s rest) as [s2 e2]
              end.
              cbn [snd the_node is_recording app started length] in *. lia.
        -- apply Hother. discriminate.
      * specialize (IH sys).
        destruct (system_run audio_mgr sys rest) as [s2 e2].
        cbn [snd app] in *.
        destruct k as [c| |]; cbn [space_presses]; lia.
    + cbn [space_presses].
      destruct (capture sys);
        match goal with
        | |- context [system_run audio_mgr ?s rest] =>
          specialize (IH s);
          destruct (system_run audio_mgr s rest) as [s2 e2]
        end;
        cbn [snd the_node app] in *; exact IH.
    + cbn [space_presses].
      destruct (capture sys).
      2: { destruct (capture_step_inert audio_mgr (the_node sys) raw)
             as [Hs Hr].
           destruct (capture_step audio_mgr (the_node sys) raw)
             as [evs [self'|e]]; cbn [fst snd] in *.
           - specialize (Hr self' eq_refl).
             match goal with
             | |- context [system_run audio_mgr ?s rest] =>
               specialize (IH s);
               destruct (system_run audio_mgr s rest) as [s2 e2]
             end.
             cbn [snd the_node] in *. rewrite Hr in IH.
             rewrite started_app, Hs. exact IH.
           - match goal with
             | |- context [system_run audio_mgr ?s rest] =>
               specialize (IH s);
               destruct (system_run audio_mgr s rest) as [s2 e2]
             end.
             cbn [snd the_node] in *. rewrite started_app, Hs. exact IH. }
      all: specialize (IH sys);
        destruct (system_run audio_mgr sys rest) as [s2 e2];
        cbn [snd app] in *; exact IH.
Qed.

(** ** Recognition session: incomplete responses *)

(** X22. A response without a "code" key counts as an error, and one
    without a "message" key is reported as '未知错误': when it is the first
    response, the session logs that error, closes the connection and
    reports an empty recognition result, whatever else the response
    carries. *)
Theorem missing_code_is_an_error `{SignLibs} (env : credentials)
  (now : datetime) (srv : server) (audio_data : bytes) (ws_url : str)
  (payload : option Response.data_t) (rest : list recv) :
  credentials_complete env = true ->
  create_url (params_of env) now = ret ws_url ->
  accepts srv = Ok tt ->
  (3 <= sends_accepted srv)%nat ->
  replies srv =
  Message {| Response.code := None; Response.message := None;
             Response.data := payload |} :: rest ->
  process_audio env now srv audio_data =
  ([WsConnect ws_url; WsSend (start_frame (params_of env));
    WsSend (data_frame audio_data); WsSend end_frame;
    Log error (msg_recognition_error msg_unknown_error); WsClose;
    Log warn msg_empty_result; prompt_next], Ok tt).
Proof.
  intros Hcred Hurl Hacc Hsend Hrep.
  exact (process_audio_spec env now srv audio_data ws_url []
           {| Response.code := None; Response.message := None;
              Response.data := payload |} rest
           Hcred Hurl Hacc Hsend Hrep (Forall_nil _) eq_refl).
Qed.

Lemma missing_code_is_an_error_witness :
  published (events
    (@process_audio Double.sign_libs Double.env 0
       (Double.up [Message {| Response.code := None;
                              Response.message := None;
                              Response.data := None |}])
       [x01; x02]))
  = [].
Proof.
  rewrite (@missing_code_is_an_error Double.sign_libs Double.env 0
             (Double.up [Message {| Response.code := None;
                                    Response.message := None;
                                    Response.data := None |}])
             [x01; x02] Double.url0 None []).
  - reflexivity.
  - reflexivity.
  - vm_compute. reflexivity.
  - reflexivity.
  - cbn. lia.
  - reflexivity.
Defined.

(** X23. A response with code 0 that has no "data" key adds nothing to
    the transcript and does not end the loop: wherever such a response
    sits among the responses that keep the loop going, the receive loop
    does what it does without it. *)
Theorem empty_responses_are_skipped (pre1 pre2 : list Response.t)
  (note : option str) (tail : list recv) (acc : str) :
  Forall continues pre1 -> Forall continues pre2 ->
  let empty := {| Response.code := Some 0; Response.message := note;
                  Response.data := None |} in
  recv_loop (map Message (pre1 ++ empty :: pre2) ++ tail) acc =
  recv_loop (map Message (pre1 ++ pre2) ++ tail) acc.
Proof.
  intros H1 H2 empty.
  assert (Hempty : continues empty) by (split; reflexivity).
  rewrite (recv_loop_continue (pre1 ++ empty :: pre2) tail acc)
    by (apply Forall_app; split; [exact H1|constructor; assumption]).
  rewrite (recv_loop_continue (pre1 ++ pre2) tail acc)
    by (apply Forall_app; split; assumption).
  rewrite !map_app, !concat_app. cbn [map concat].
  change (msg_words empty) with (@nil N). reflexivity.
Qed.

Lemma empty_responses_are_skipped_witness :
  recv_loop [Message {| Response.code := Some 0; Response.message := None;
                        Response.data := None |};
             Double.words_msg 2 (u "前进")] []
  = recv_loop [Double.words_msg 2 (u "前进")] [].
Proof.
  apply (empty_responses_are_skipped [] [] None
           [Double.words_msg 2 (u "前进")] []); constructor.
Defined.
